(** * HydrogenNucleusHelper: location codec, exchange-rate codec and swap math

    A shallow embedding of [src/lib/utils/HydrogenNucleusHelper.ts].

    - An [ethers.BigNumber] is a signed integer of arbitrary precision: [Z].
    - A JavaScript string is a [string]; a location and an encoded exchange
      rate are the strings the helper passes around ("0x" and 64 hex
      digits when well formed).
    - A call that can throw returns a [result]; [Throw] carries what was
      thrown, so that an inactive-rate error, a range error and a fault of
      the ethers library stay apart.
    - The fee table of [getSwapFeeForPair] is a nested [gmap]. *)

From Stdlib Require Import ZArith String Ascii List Bool Lia.
From stdpp Require Import base option gmap strings.

Local Open Scope string_scope.
Local Open Scope Z_scope.

(** ** Exceptions and results *)

Inductive exn : Type :=
| ThrowString (msg : string)              (* [throw("...")] in the helper *)
| NumericFault (fault operation : string) (* ethers [throwFault] *)
| InvalidArgument (message : string)      (* ethers [throwArgumentError] *)
| AssertionFailed                         (* bn.js [assert] *)
| TypeError.                              (* property read on [undefined] *)

Inductive result (A : Type) : Type :=
| Ok (a : A)
| Throw (e : exn).
Arguments Ok {A} a.
Arguments Throw {A} e.

Definition bind {A B} (r : result A) (k : A -> result B) : result B :=
  match r with
  | Ok a => k a
  | Throw e => Throw e
  end.

Declare Scope js_scope.
Delimit Scope js_scope with js.
Notation "'let!' x ':=' r 'in' k" := (bind r (fun x => k))
  (at level 10, x name, r at level 100, k at level 200) : js_scope.
Notation "'let!' ' p ':=' r 'in' k" := (bind r (fun x => let 'p := x in k))
  (at level 10, p pattern, r at level 100, k at level 200) : js_scope.
Local Open Scope js_scope.


(** ** JavaScript strings *)

Module JsString.

(** [s.substring(start, end)] for [start <= end]; an [end] past the
    string is cut at the end of the string, as in JavaScript. *)
Definition substring (s : string) (start stop : nat) : string :=
  String.substring start (stop - start) s.

(** [s.substring(start)] *)
Fixpoint substring_from (s : string) (start : nat) {struct start}
  : string :=
  match start, s with
  | O, _ => s
  | S n, EmptyString => EmptyString
  | S n, String _ r => substring_from r n
  end.

Fixpoint all (p : ascii -> bool) (s : string) : bool :=
  match s with
  | EmptyString => true
  | String c r => p c && all p r
  end.

Fixpoint any (p : ascii -> bool) (s : string) : bool :=
  match s with
  | EmptyString => false
  | String c r => p c || any p r
  end.

Fixpoint map (f : ascii -> ascii) (s : string) : string :=
  match s with
  | EmptyString => EmptyString
  | String c r => String (f c) (map f r)
  end.

Fixpoint repeat (c : ascii) (n : nat) : string :=
  match n with
  | O => EmptyString
  | S k => String c (repeat c k)
  end.

Definition code (c : ascii) : Z := Z.of_N (N_of_ascii c).
Definition char (z : Z) : ascii := ascii_of_N (Z.to_N z).

Definition between (lo hi c : ascii) : bool :=
  (code lo <=? code c) && (code c <=? code hi).

Definition is_digit (c : ascii) : bool := between "0" "9" c.
Definition is_lower_af (c : ascii) : bool := between "a" "f" c.
Definition is_upper_AF (c : ascii) : bool := between "A" "F" c.
Definition is_hex (c : ascii) : bool :=
  is_digit c || is_lower_af c || is_upper_AF c.
Definition is_lower_hex (c : ascii) : bool := is_digit c || is_lower_af c.

(** [toLowerCase] and [toUpperCase] on the characters the helper meets
    (ASCII letters). *)
Definition to_lower (c : ascii) : ascii :=
  if between "A" "Z" c then char (code c + 32) else c.
Definition to_upper (c : ascii) : ascii :=
  if between "a" "z" c then char (code c - 32) else c.

(** The value of a digit in a radix up to 16. *)
Definition digit_value (c : ascii) : Z :=
  if is_digit c then code c - 48
  else if is_lower_af c then code c - 87
  else if is_upper_AF c then code c - 55
  else 0.

(** The lower-case digit character of a value below 16. *)
Definition digit_char (d : Z) : ascii :=
  if d <? 10 then char (48 + d) else char (87 + d).

Fixpoint parse_from (radix : Z) (acc : Z) (s : string) : Z :=
  match s with
  | EmptyString => acc
  | String c r => parse_from radix (acc * radix + digit_value c) r
  end.

(** The number written by the digits of [s] in the radix. *)
Definition parse (radix : Z) (s : string) : Z := parse_from radix 0 s.

(** Digits of a non-negative number, least significant first. The fuel
    bounds the number of digits. *)
Fixpoint digits_le (radix : Z) (fuel : nat) (n : Z) : list Z :=
  match fuel with
  | O => []
  | S f =>
      if n =? 0 then [] else (n mod radix) :: digits_le radix f (n / radix)
  end.

Definition of_digits (ds : list Z) : string :=
  fold_right (fun d s => String (digit_char d) s) EmptyString ds.

(** bn.js [toString(radix)] of a non-negative number: no leading zero,
    ["0"] for zero. *)
Definition print (radix : Z) (n : Z) : string :=
  match rev (digits_le radix (S (Z.to_nat (Z.log2 n))) n) with
  | [] => "0"
  | ds => of_digits ds
  end.

End JsString.

(** ** Keccak-256, the hash behind the checksum of an address *)

Module Keccak.

Definition mask64 : Z := Z.ones 64.

Definition rotl (x n : Z) : Z :=
  Z.land (Z.lor (Z.shiftl x n) (Z.shiftr x (64 - n))) mask64.

(** The state is 25 lanes of 64 bits, lane (x, y) at index x + 5 y. *)
Definition lane (st : list Z) (x y : nat) : Z :=
  nth (x mod 5 + 5 * (y mod 5)) st 0.

Definition build (f : nat -> nat -> Z) : list Z :=
  List.map (fun i => f (i mod 5)%nat (i / 5)%nat) (seq 0 25).

Definition rotation_offsets : list Z :=
  [  0;  1; 62; 28; 27;
    36; 44;  6; 55; 20;
     3; 10; 43; 25; 39;
    41; 45; 15; 21;  8;
    18;  2; 61; 56; 14 ].

Definition round_constants : list Z :=
  [ 0x0000000000000001; 0x0000000000008082; 0x800000000000808A;
    0x8000000080008000; 0x000000000000808B; 0x0000000080000001;
    0x8000000080008081; 0x8000000000008009; 0x000000000000008A;
    0x0000000000000088; 0x0000000080008009; 0x000000008000000A;
    0x000000008000808B; 0x800000000000008B; 0x8000000000008089;
    0x8000000000008003; 0x8000000000008002; 0x8000000000000080;
    0x000000000000800A; 0x800000008000000A; 0x8000000080008081;
    0x8000000000008080; 0x0000000080000001; 0x8000000080008008 ].

Definition theta (st : list Z) : list Z :=
  let C x := fold_left Z.lxor (List.map (lane st x) (seq 0 5)) 0 in
  let D x := Z.lxor (C (x + 4)%nat) (rotl (C (x + 1)%nat) 1) in
  build (fun x y => Z.lxor (lane st x y) (D x)).

Definition rho_pi (st : list Z) : list Z :=
  build (fun x y =>
    let x0 := ((x + 3 * y) mod 5)%nat in
    rotl (lane st x0 x) (nth (x0 + 5 * x) rotation_offsets 0)).

Definition chi (st : list Z) : list Z :=
  build (fun x y =>
    Z.lxor (lane st x y)
      (Z.land (Z.lxor (lane st (x + 1) y) mask64) (lane st (x + 2) y))).

Definition iota (rc : Z) (st : list Z) : list Z :=
  match st with
  | [] => []
  | l :: r => Z.lxor l rc :: r
  end.

Definition round (st : list Z) (rc : Z) : list Z :=
  iota rc (chi (rho_pi (theta st))).

Definition keccak_f (st : list Z) : list Z :=
  fold_left round round_constants st.

(** Eight bytes, least significant first, as a lane, and back. *)
Definition lane_of_bytes (bs : list Z) : Z :=
  fold_right (fun b acc => b + 256 * acc) 0 bs.

Definition bytes_of_lane (l : Z) : list Z :=
  List.map (fun j => Z.land (Z.shiftr l (8 * Z.of_nat j)) 255) (seq 0 8).

Definition rate : nat := 136.

(** pad10*1 with the Keccak domain bit: 0x01, zeros, 0x80. *)
Definition pad (msg : list Z) : list Z :=
  let q := (rate - length msg mod rate)%nat in
  if (q =? 1)%nat then (msg ++ [0x81])%list
  else (msg ++ [0x01] ++ List.repeat 0 (q - 2) ++ [0x80])%list.

Definition absorb_block (st : list Z) (block : list Z) : list Z :=
  keccak_f
    (List.map
       (fun i =>
          if (i <? 17)%nat
          then Z.lxor (nth i st 0)
                 (lane_of_bytes (firstn 8 (skipn (8 * i) block)))
          else nth i st 0)
       (seq 0 25)).

Fixpoint absorb (blocks : nat) (st : list Z) (data : list Z) : list Z :=
  match blocks with
  | O => st
  | S k => absorb k (absorb_block st (firstn rate data)) (skipn rate data)
  end.

(** The 32 bytes of the digest. *)
Definition keccak256 (msg : list Z) : list Z :=
  let data := pad msg in
  let st := absorb (length data / rate) (List.repeat 0 25) data in
  firstn 32 (concat (List.map bytes_of_lane st)).

End Keccak.

(** ** The parts of ethers v5 the helper calls *)

Module Ethers.
Import JsString.

Definition MAX_SAFE_INTEGER : Z := 9007199254740991.

(** *** BigNumber *)

(** [BigNumber.from(value)] of a string: an optional sign, then either
    "0x" and hex digits, or decimal digits; anything else is an invalid
    argument. The hex pattern is matched without regard to case, so "0X"
    passes it; bn.js 5 then fails on the X ("Invalid character") as soon
    as the number is used, which every caller here does at once. *)
Definition from_unsigned (body : string) : result Z :=
  match body with
  | String "0" (String x digits) =>
      if (Ascii.eqb x "x" || Ascii.eqb x "X")
         && negb (String.eqb digits "") && all is_hex digits
      then if Ascii.eqb x "x" then Ok (parse 16 digits)
           else Throw AssertionFailed
      else if all is_digit body then Ok (parse 10 body)
      else Throw (InvalidArgument "invalid BigNumber string")
  | EmptyString => Throw (InvalidArgument "invalid BigNumber string")
  | _ =>
      if all is_digit body then Ok (parse 10 body)
      else Throw (InvalidArgument "invalid BigNumber string")
  end.

Definition from_string (value : string) : result Z :=
  match value with
  | String "-" body => let! n := from_unsigned body in Ok (- n)
  | _ => from_unsigned value
  end.

(** [BigNumber.from(value)] of a number that holds an integer: only the
    safe integers are taken. *)
Definition from_number (value : Z) : result Z :=
  if (MAX_SAFE_INTEGER <=? value) || (value <=? - MAX_SAFE_INTEGER)
  then Throw (NumericFault "overflow" "BigNumber.from")
  else Ok value.

Definition toNumber (n : Z) : result Z :=
  if Z.abs n <=? MAX_SAFE_INTEGER then Ok n
  else Throw (NumericFault "overflow" "toNumber").

(** [div] is the division of bn.js, which rounds towards zero. *)
Definition div (a b : Z) : result Z :=
  if b =? 0 then Throw (NumericFault "division-by-zero" "div")
  else Ok (Z.quot a b).

(** [mod] is [umod] of bn.js. *)
Definition mod_ (a b : Z) : result Z :=
  if b <? 0 then Throw (NumericFault "division-by-zero" "mod")
  else if b =? 0 then Throw AssertionFailed
  else Ok (a mod b).

Definition shl (a n : Z) : result Z :=
  if (a <? 0) || (n <? 0) then Throw (NumericFault "negative-width" "shl")
  else Ok (Z.shiftl a n).

Definition shr (a n : Z) : result Z :=
  if (a <? 0) || (n <? 0) then Throw (NumericFault "negative-width" "shr")
  else Ok (Z.shiftr a n).

Definition and (a b : Z) : result Z :=
  if (a <? 0) || (b <? 0)
  then Throw (NumericFault "unbound-bitwise-result" "and")
  else Ok (Z.land a b).

(** [toString()]: decimal. *)
Definition toString (n : Z) : string :=
  if n <? 0 then "-" ++ print 10 (- n) else print 10 n.

(** [toHex] on the hex digits bn.js prints: the "0x" prefix and a zero
    in front of an odd number of digits. bn.js prints no leading zero,
    so the loop of [toHex] that drops leading zero bytes has nothing to
    drop. *)
Definition toHex (digits : string) : string :=
  if Nat.odd (String.length digits) then "0x0" ++ digits
  else "0x" ++ digits.

Definition toHexString (n : Z) : string :=
  if n <? 0 then "-" ++ toHex (print 16 (- n)) else toHex (print 16 n).

(** *** Bytes *)

Fixpoint hex_pairs (hex : string) : list Z :=
  match hex with
  | String h (String l r) =>
      (16 * digit_value h + digit_value l) :: hex_pairs r
  | _ => []
  end.

Definition isHexString (value : string) : bool :=
  String.eqb (substring value 0 2) "0x" && all is_hex (substring_from value 2).

Definition arrayify (value : string) : result (list Z) :=
  if isHexString value then
    let hex := substring_from value 2 in
    if Nat.odd (String.length hex)
    then Throw (InvalidArgument "hex data is odd-length")
    else Ok (hex_pairs hex)
  else Throw (InvalidArgument "invalid arrayify value").

Definition zeroPad (value : string) (length : nat) : result (list Z) :=
  let! bytes := arrayify value in
  if (length <? List.length bytes)%nat
  then Throw (InvalidArgument "value out of range")
  else Ok (List.repeat 0 (length - List.length bytes) ++ bytes)%list.

Definition hexlify (bytes : list Z) : string :=
  "0x" ++
  fold_right
    (fun v s =>
       String (digit_char (Z.shiftr (Z.land v 0xf0) 4))
         (String (digit_char (Z.land v 0x0f)) s))
    EmptyString bytes.

(** *** BigNumberish *)

(** The values a property typed [any] may hold, as [BigNumber.from]
    tells them apart. *)
Inductive bignumberish : Type :=
| JsBigNumber (n : Z)     (* a BigNumber, or a bigint *)
| JsNumber (n : Z)        (* a number that holds an integer *)
| JsFraction              (* a number with a fractional part *)
| JsString (s : string)
| JsJson (hex : string)   (* a BigNumber as JSON holds it: [_hex] or [hex] *)
| JsOther.                (* undefined, null, any other object *)

(** [BigNumber.from(value)] *)
Definition from (value : bignumberish) : result Z :=
  match value with
  | JsBigNumber n => Ok n
  | JsString s => from_string s
  | JsFraction => Throw (NumericFault "underflow" "BigNumber.from")
  | JsNumber n => from_number n
  | JsJson hex =>
      if isHexString hex
         || (String.eqb (substring hex 0 1) "-"
             && isHexString (substring_from hex 1))
      then from_string hex
      else Throw (InvalidArgument "invalid BigNumber value")
  | JsOther => Throw (InvalidArgument "invalid BigNumber value")
  end.

(** *** Addresses *)

Fixpoint checksum_case (chars : string) (hashed : list Z) : string :=
  match chars, hashed with
  | String c0 (String c1 r), h :: hs =>
      String (if 8 <=? Z.shiftr h 4 then to_upper c0 else c0)
        (String (if 8 <=? Z.land h 0x0f then to_upper c1 else c1)
           (checksum_case r hs))
  | _, _ => chars
  end.

Definition getChecksumAddress (address : string) : result string :=
  if isHexString address && (String.length address =? 42)%nat then
    let chars := substring_from (map to_lower address) 2 in
    let expanded := List.map code (list_ascii_of_string chars) in
    Ok ("0x" ++ checksum_case chars (Keccak.keccak256 expanded))
  else Throw (InvalidArgument "invalid address").

(** [getAddress] on "0x" and 40 hex digits, or 40 hex digits alone. An
    address in two cases must carry its own checksum. The ICAP form
    ("XE" and base-36 digits) is left out: the helper always passes a
    string that starts with "0x", which is no ICAP address. *)
Definition getAddress (address : string) : result string :=
  let body :=
    if String.eqb (substring address 0 2) "0x"
    then substring_from address 2 else address in
  if (String.length body =? 40)%nat && all is_hex body then
    let address := "0x" ++ body in
    let! result := getChecksumAddress address in
    if any is_upper_AF address && any is_lower_af address
       && negb (String.eqb result address)
    then Throw (InvalidArgument "bad address checksum")
    else Ok result
  else Throw (InvalidArgument "invalid address").

End Ethers.

(** ** The helper *)

Module HydrogenNucleusHelper.
Import JsString.

Definition MaxUint128 : Z := 2 ^ 128 - 1.
Definition MAX_PPM : Z := 1000000.

(** *** Location functions *)

(** [while(s.length < 62) s = `0${s}`]; every turn makes the string one
    longer, so 62 turns are enough. *)
Fixpoint pad_loop (fuel : nat) (s : string) : string :=
  match fuel with
  | O => s
  | S f => if (String.length s <? 62)%nat then pad_loop f ("0" ++ s) else s
  end.

(** encode an external address as a location (lines 14-19) *)
Definition externalAddressToLocation (address : string) : result string :=
  let addr := map to_lower (substring_from address 2) in
  let addr := pad_loop 62 addr in
  Ok ("0x01" ++ addr).

(** encode an internal address as a location (lines 22-27) *)
Definition internalAddressToLocation (address : string) : result string :=
  let addr := map to_lower (substring_from address 2) in
  let addr := pad_loop 62 addr in
  Ok ("0x02" ++ addr).

(** encode a poolID as a location (lines 30-36) *)
Definition poolIDtoLocation (poolID : Z) : result string :=
  let num := Ethers.toHexString poolID in
  let num := substring_from num 2 in
  let num := pad_loop 62 num in
  Ok ("0x03" ++ num).

(** [`invalid location ${loc}`] *)
Definition invalid_location (loc : string) : string :=
  "invalid location " ++ loc.

Definition reserved_zeros : string := "0000000000000000000000".

(** create a human readable description of a location (lines 39-53) *)
Definition locationToString (loc : string) : result string :=
  if negb (String.length loc =? 66)%nat then Ok (invalid_location loc)
  else if String.eqb (substring loc 0 4) "0x01" then
    if negb (String.eqb (substring loc 4 26) reserved_zeros)
    then Ok (invalid_location loc)
    else
      let! addr := Ethers.getAddress ("0x" ++ substring loc 26 66) in
      Ok (addr ++ " external balance")
  else if String.eqb (substring loc 0 4) "0x02" then
    if negb (String.eqb (substring loc 4 26) reserved_zeros)
    then Ok (invalid_location loc)
    else
      let! addr := Ethers.getAddress ("0x" ++ substring loc 26 66) in
      Ok (addr ++ " internal balance")
  else if String.eqb (substring loc 0 4) "0x03" then
    let! poolID := Ethers.from_string ("0x" ++ substring loc 4 66) in
    Ok ("poolID " ++ Ethers.toString poolID)
  else Ok (invalid_location loc).

(** *** Exchange rate functions *)

(** returns a number in its full 32 byte hex representation
    (lines 162-164) *)
Definition toBytes32 (bn : Z) : result string :=
  let! bytes := Ethers.zeroPad (Ethers.toHexString bn) 32 in
  Ok (Ethers.hexlify bytes).

(** The string that [encodeExchangeRate] throws. *)
Definition range_message (x1 x2 : Z) : string :=
  "HydrogenNucleusHelper: cannot encode exchange rate. Received "
  ++ Ethers.toString x1 ++ ", " ++ Ethers.toString x2
  ++ ". Max " ++ Ethers.toString MaxUint128.

(** encodes an exchange rate (lines 58-64) *)
Definition encodeExchangeRate (exchangeRateX1 exchangeRateX2 : Z)
  : result string :=
  let x1 := exchangeRateX1 in
  let x2 := exchangeRateX2 in
  if (x1 >? MaxUint128) || (x2 >? MaxUint128)
  then Throw (ThrowString (range_message x1 x2))
  else
    let! shifted := Ethers.shl x1 128 in
    toBytes32 (shifted + x2).

(** decodes an exchange rate (lines 67-73) *)
Definition decodeExchangeRate (exchangeRate : string) : result (Z * Z) :=
  let! er := Ethers.from_string exchangeRate in
  let! x1 := Ethers.shr er 128 in
  let! x2 := Ethers.and er MaxUint128 in
  Ok (x1, x2).

(** returns true if the exchange rate is non zero (lines 76-80) *)
Definition exchangeRateIsNonzero (exchangeRate : string) : result bool :=
  let! '(x1, x2) := decodeExchangeRate exchangeRate in
  if (x1 <=? 0) || (x2 <=? 0) then Ok false else Ok true.

(** *** General helper functions *)

(** [for(let i = 0; i < decimals; ++i) s += '0'] *)
Fixpoint append_zeros (turns : nat) (s : string) : string :=
  match turns with
  | O => s
  | S k => append_zeros k (s ++ "0")
  end.

(** given the decimals of a token, returns a bignumber of one token
    (lines 154-159). [decimals] is a JavaScript number that holds an
    integer. *)
Definition decimalsToAmount (decimals : Z) : result Z :=
  let! bn := Ethers.from_number decimals in
  let! decimals := Ethers.toNumber bn in
  let s := append_zeros (Z.to_nat decimals) "1" in
  Ethers.from_string s.

Record RelativeAmounts : Type :=
  { amountAperB : Z; amountBperA : Z }.

(** creates human readable descriptions of an exchange rate
    (lines 83-87) *)
Definition calculateRelativeAmounts
  (amountA : Z) (decimalsA : Z) (amountB : Z) (decimalsB : Z)
  : result RelativeAmounts :=
  let! unitB := decimalsToAmount decimalsB in
  let! amountAperB := Ethers.div (amountA * unitB) amountB in
  let! unitA := decimalsToAmount decimalsA in
  let! amountBperA := Ethers.div (amountB * unitA) amountA in
  Ok {| amountAperB := amountAperB; amountBperA := amountBperA |}.

(** *** Swap calculators *)

(** The string that the swap calculators throw on an inactive rate. *)
Definition inactive_message : string :=
  "HydrogenNucleusHelper: pool cannot exchange these tokens".

(** as market maker (lines 92-99) *)
Definition calculateAmountA (amountB : Z) (exchangeRate : string)
  : result Z :=
  let! '(x1, x2) := decodeExchangeRate exchangeRate in
  if (x1 <=? 0) || (x2 <=? 0) then Throw (ThrowString inactive_message)
  else
    let amtB := amountB in
    Ethers.div (amtB * x1) x2.

(** as market maker (lines 102-111) *)
Definition calculateAmountB (amountA : Z) (exchangeRate : string)
  : result Z :=
  let! '(x1, x2) := decodeExchangeRate exchangeRate in
  if (x1 <=? 0) || (x2 <=? 0) then Throw (ThrowString inactive_message)
  else
    let amtA := amountA in
    let numerator := amtA * x2 in
    let! amountB := Ethers.div numerator x1 in
    let! remainder := Ethers.mod_ numerator x1 in
    if remainder >? 0 then Ok (amountB + 1) else Ok amountB.

(** The objects the two market-taker calculators return. *)
Module ExactAMT.
Record t : Type :=
  { amountAMM : Z; amountBMM : Z; amountBMT : Z; amountBFR : Z }.
End ExactAMT.

Module ExactBMT.
Record t : Type :=
  { amountAMM : Z; amountAMT : Z; amountBMM : Z; amountBFR : Z }.
End ExactBMT.

(** as market taker (lines 114-120) *)
Definition calculateMarketOrderExactAMT
  (amountAMT : Z) (exchangeRate : string) (feePPM : Z)
  : result ExactAMT.t :=
  let amountAMM := amountAMT in
  let! amountBMM := calculateAmountB amountAMM exchangeRate in
  let! amountBMT := Ethers.div (amountBMM * MAX_PPM) (MAX_PPM - feePPM) in
  let! amountBFR := Ethers.div (amountBMT * feePPM) MAX_PPM in
  Ok {| ExactAMT.amountAMM := amountAMM; ExactAMT.amountBMM := amountBMM;
        ExactAMT.amountBMT := amountBMT; ExactAMT.amountBFR := amountBFR |}.

(** as market taker (lines 123-130) *)
Definition calculateMarketOrderExactBMT
  (amountBMT : Z) (exchangeRate : string) (feePPM : Z)
  : result ExactBMT.t :=
  let! amountBFR := Ethers.div (amountBMT * feePPM) MAX_PPM in
  let amountBMM := amountBMT - amountBFR in
  let! amountAMM := calculateAmountA amountBMM exchangeRate in
  let amountAMT := amountAMM in
  Ok {| ExactBMT.amountAMM := amountAMM; ExactBMT.amountAMT := amountAMT;
        ExactBMT.amountBMM := amountBMM; ExactBMT.amountBFR := amountBFR |}.

(** *** Swap fees *)

(** An entry of the fee table; what its [feePPM] holds is not typed. *)
Record SwapFee : Type := { feePPM : Ethers.bignumberish }.




End HydrogenNucleusHelper.

Import JsString HydrogenNucleusHelper.

(** ** Vocabulary of the statements *)

(** [q] is the quotient [n / d] rounded down, and rounded up. *)
Definition is_floor (q n d : Z) : Prop := q * d <= n < (q + 1) * d.
Definition is_ceil (q n d : Z) : Prop := (q - 1) * d < n <= q * d.

(** What is thrown comes from ethers, not from a [throw] of the helper. *)
Definition from_library (e : exn) : Prop := forall msg, e <> ThrowString msg.

(** The encoded exchange rates of the examples. *)
Definition rate_3_1 : string :=
  "0x0000000000000000000000000000000300000000000000000000000000000001".
Definition rate_1_1 : string :=
  "0x0000000000000000000000000000000100000000000000000000000000000001".
Definition rate_0_5 : string :=
  "0x0000000000000000000000000000000000000000000000000000000000000005".


(** The two tokens and the fee tables of the examples. *)
Definition tokenA_example : string :=
  "0x5aAeb6053F3E94C9b9A09f33669435E7Ef1BeAed".
Definition tokenB_example : string :=
  "0xfB6916095ca1df60bB79Ce92cE3Ea74c37c5d359".





(** The entry of the fee table for an ordered pair of tokens, if the
    table has one. *)
Definition fee_entry (fees : gmap string (gmap string SwapFee))
  (tokenA tokenB : string) : option Ethers.bignumberish :=
  match fees !! tokenA with
  | None => None
  | Some row => feePPM <$> row !! tokenB
  end.

(** The entry is present and [BigNumber.from] reads it as [fee]. *)
Definition entry_reads (fees : gmap string (gmap string SwapFee))
  (tokenA tokenB : string) (fee : Z) : Prop :=
  exists value,
    fee_entry fees tokenA tokenB = Some value /\ Ethers.from value = Ok fee.

(** The entry is absent, or [BigNumber.from] rejects it. *)
Definition entry_unread (fees : gmap string (gmap string SwapFee))
  (tokenA tokenB : string) : Prop :=
  fee_entry fees tokenA tokenB = None
  \/ exists value e,
       fee_entry fees tokenA tokenB = Some value
       /\ Ethers.from value = Throw e.

(** The number a list of digits stands for, least significant first. *)
Definition value_le (radix : Z) (ds : list Z) : Z :=
  fold_right (fun d acc => d + radix * acc) 0 ds.

Definition digits_ok (radix : Z) (ds : list Z) : Prop :=
  Forall (fun d => 0 <= d < radix) ds.

(** The hex digits of [toHexString], after its "0x". *)
Definition even_hex (n : Z) : string :=
  if Nat.odd (String.length (print 16 n)) then "0" ++ print 16 n
  else print 16 n.

(** The number a list of bytes stands for, most significant first. *)
Definition value_be_from (acc : Z) (bytes : list Z) : Z :=
  fold_left (fun acc v => acc * 256 + v) bytes acc.

Definition bytes_ok (bytes : list Z) : Prop :=
  Forall (fun v => 0 <= v < 256) bytes.

(** The hex digits of [hexlify], after its "0x". *)
Definition hexlify_body (bytes : list Z) : string :=
  fold_right
    (fun v s =>
       String (digit_char (Z.shiftr (Z.land v 0xf0) 4))
         (String (digit_char (Z.land v 0x0f)) s))
    EmptyString bytes.

(** What [poolIDtoLocation] returns for the pool id 2^248. *)
Definition location_2_248 : string :=
  "0x030100000000000000000000000000000000000000000000000000000000000000".

(** The parts of a location that [locationToString] reads. *)
Definition tag (loc : string) : string := substring loc 0 4.
Definition reserved (loc : string) : string := substring loc 4 26.
Definition address_part (loc : string) : string := substring loc 26 66.
Definition pool_part (loc : string) : string := substring loc 4 66.

(** The inputs for which the code returns the invalid-location string
    before it reads an address or a pool id. *)
Definition invalid_shape (loc : string) : Prop :=
  String.length loc <> 66%nat
  \/ (tag loc <> "0x01" /\ tag loc <> "0x02" /\ tag loc <> "0x03")
  \/ ((tag loc = "0x01" \/ tag loc = "0x02")
      /\ reserved loc <> reserved_zeros).

(** The four descriptions. *)
Inductive description (loc : string) : string -> Prop :=
| describes_invalid :
    description loc (invalid_location loc)
| describes_external (addr : string) :
    tag loc = "0x01" ->
    Ethers.getAddress ("0x" ++ address_part loc) = Ok addr ->
    description loc (addr ++ " external balance")
| describes_internal (addr : string) :
    tag loc = "0x02" ->
    Ethers.getAddress ("0x" ++ address_part loc) = Ok addr ->
    description loc (addr ++ " internal balance")
| describes_pool (poolID : Z) :
    tag loc = "0x03" ->
    Ethers.from_string ("0x" ++ pool_part loc) = Ok poolID ->
    description loc ("poolID " ++ Ethers.toString poolID).

(** The path the code takes on a location. *)
Inductive location_path (loc : string) : result string -> Prop :=
| path_length :
    String.length loc <> 66%nat ->
    location_path loc (Ok (invalid_location loc))
| path_reserved :
    String.length loc = 66%nat ->
    tag loc = "0x01" \/ tag loc = "0x02" ->
    reserved loc <> reserved_zeros ->
    location_path loc (Ok (invalid_location loc))
| path_tag :
    String.length loc = 66%nat ->
    tag loc <> "0x01" -> tag loc <> "0x02" -> tag loc <> "0x03" ->
    location_path loc (Ok (invalid_location loc))
| path_external :
    String.length loc = 66%nat ->
    tag loc = "0x01" -> reserved loc = reserved_zeros ->
    location_path loc
      (let! addr := Ethers.getAddress ("0x" ++ address_part loc) in
       Ok (addr ++ " external balance"))
| path_internal :
    String.length loc = 66%nat ->
    tag loc = "0x02" -> reserved loc = reserved_zeros ->
    location_path loc
      (let! addr := Ethers.getAddress ("0x" ++ address_part loc) in
       Ok (addr ++ " internal balance"))
| path_pool :
    String.length loc = 66%nat ->
    tag loc = "0x03" ->
    location_path loc
      (let! poolID := Ethers.from_string ("0x" ++ pool_part loc) in
       Ok ("poolID " ++ Ethers.toString poolID)).

(** The example locations: an address in two cases that is not its own
    checksum, the same in lower case, and a pool id that is no hex. *)
Definition location_bad_checksum : string :=
  "0x0100000000000000000000005AAeb6053F3E94C9b9A09f33669435E7Ef1BeAed".
Definition location_lower_case : string :=
  "0x0100000000000000000000005aaeb6053f3e94c9b9a09f33669435e7ef1beaed".
Definition location_no_hex : string :=
  "0x03zzzzzzzzzzzzzzzzzzzzzzzzzzzzzzzzzzzzzzzzzzzzzzzzzzzzzzzzzzzzzz".

(** The address with its checksum, for "0x" and 40 hex digits. *)
Definition checksummed (body : string) : string :=
  "0x" ++ Ethers.checksum_case (map to_lower body)
            (Keccak.keccak256
               (List.map code (list_ascii_of_string (map to_lower body)))).

(** The 40 characters on which [getAddress] throws: not all hex digits,
    or letters in two cases that are not the address with its
    checksum. *)
Definition bad_address (body : string) : Prop :=
  all is_hex body = false
  \/ (any is_upper_AF body = true /\ any is_lower_af body = true
      /\ checksummed body <> "0x" ++ body).

(** The inputs on which [locationToString] raises. *)
Definition raising_shape (loc : string) : Prop :=
  String.length loc = 66%nat
  /\ (((tag loc = "0x01" \/ tag loc = "0x02")
       /\ reserved loc = reserved_zeros
       /\ bad_address (address_part loc))
      \/ (tag loc = "0x03" /\ all is_hex (pool_part loc) = false)).

(** Example locations on which [locationToString] returns: an address
    with its checksum, and an address and a pool id in upper case. *)
Definition location_checksummed : string :=
  "0x0100000000000000000000005aAeb6053F3E94C9b9A09f33669435E7Ef1BeAed".
Definition location_upper_case : string :=
  "0x0200000000000000000000005AAEB6053F3E94C9B9A09F33669435E7EF1BEAED".
Definition location_pool_upper : string :=
  "0x0300000000000000000000000000000000000000000000000000000000ABCDEF".

(** A character of ASCII; on these [to_lower] is [toLowerCase]. *)
Definition is_ascii (c : ascii) : bool := code c <? 128.

(** * Proofs *)

(** ** The embedding on known values *)

(** Keccak-256 of the empty message, and the addresses of EIP-55. *)
Example keccak256_empty :
  Ethers.hexlify (Keccak.keccak256 [])
  = "0xc5d2460186f7233c927e7db2dcc703c0e500b653ca82273b7bfad8045d85a470".
Proof. vm_compute. reflexivity. Qed.

Example getAddress_eip55 :
  Ethers.getAddress "0x5aaeb6053f3e94c9b9a09f33669435e7ef1beaed"
  = Ok "0x5aAeb6053F3E94C9b9A09f33669435E7Ef1BeAed"
  /\ Ethers.getAddress "0xfb6916095ca1df60bb79ce92ce3ea74c37c5d359"
     = Ok "0xfB6916095ca1df60bB79Ce92cE3Ea74c37c5d359"
  /\ Ethers.getAddress "0xdbF03B407c01E7cD3CBea99509d93f8DDDC8C6FB"
     = Ok "0xdbF03B407c01E7cD3CBea99509d93f8DDDC8C6FB"
  /\ Ethers.getAddress "0xD1220A0cf47c7B9Be7A2E6BA89F429762e7b9aDb"
     = Ok "0xD1220A0cf47c7B9Be7A2E6BA89F429762e7b9aDb"
  /\ Ethers.getAddress "0xd1220A0cf47c7B9Be7A2E6BA89F429762e7b9aDb"
     = Throw (InvalidArgument "bad address checksum").
Proof. repeat split; vm_compute; reflexivity. Qed.

Example toHexString_values :
  Ethers.toHexString 0 = "0x00" /\ Ethers.toHexString 255 = "0xff"
  /\ Ethers.toHexString 256 = "0x0100" /\ Ethers.toHexString (-1) = "-0x01".
Proof. repeat split; vm_compute; reflexivity. Qed.

Example locations_described :
  (let! loc := externalAddressToLocation tokenA_example in
   locationToString loc)
  = Ok "0x5aAeb6053F3E94C9b9A09f33669435E7Ef1BeAed external balance"
  /\ (let! loc := internalAddressToLocation tokenB_example in
      locationToString loc)
     = Ok "0xfB6916095ca1df60bB79Ce92cE3Ea74c37c5d359 internal balance"
  /\ (let! loc := poolIDtoLocation 1234 in locationToString loc)
     = Ok "poolID 1234".
Proof. repeat split; vm_compute; reflexivity. Qed.

(** ** Results *)

Lemma bind_inv_Ok {A B} (r : result A) (k : A -> result B) (b : B) :
  bind r k = Ok b -> exists a, r = Ok a /\ k a = Ok b.
Proof. destruct r as [a|e]; simpl; [eauto | discriminate]. Qed.

Lemma bind_inv_Throw {A B} (r : result A) (k : A -> result B) (e : exn) :
  bind r k = Throw e -> r = Throw e \/ exists a, r = Ok a /\ k a = Throw e.
Proof. destruct r as [a|e']; simpl; [eauto | intros [= ->]; auto]. Qed.

(** ** Rounding of the divisions of ethers *)

Lemma is_floor_div (n d : Z) : 0 < d -> is_floor (n / d) n d.
Proof.
  intros Hd. unfold is_floor.
  pose proof (Z.div_mod n d ltac:(lia)). pose proof (Z.mod_pos_bound n d Hd).
  nia.
Qed.

Lemma is_floor_unique (q q' n d : Z) :
  0 < d -> is_floor q n d -> is_floor q' n d -> q = q'.
Proof. unfold is_floor. intros Hd H H'. nia. Qed.

Lemma is_ceil_unique (q q' n d : Z) :
  0 < d -> is_ceil q n d -> is_ceil q' n d -> q = q'.
Proof. unfold is_ceil. intros Hd H H'. nia. Qed.

Lemma is_ceil_div (n d : Z) :
  0 < d -> is_ceil (n / d + (if n mod d =? 0 then 0 else 1)) n d.
Proof.
  intros Hd. unfold is_ceil.
  pose proof (Z.div_mod n d ltac:(lia)). pose proof (Z.mod_pos_bound n d Hd).
  destruct (Z.eqb_spec (n mod d) 0); nia.
Qed.

Lemma div_floor (a b : Z) :
  0 <= a -> 0 < b -> Ethers.div a b = Ok (a / b).
Proof.
  intros Ha Hb. unfold Ethers.div.
  destruct (Z.eqb_spec b 0); [lia |].
  now rewrite Z.quot_div_nonneg by lia.
Qed.

Lemma mod_pos (a b : Z) : 0 < b -> Ethers.mod_ a b = Ok (a mod b).
Proof.
  intros Hb. unfold Ethers.mod_.
  destruct (Z.ltb_spec b 0); [lia |].
  destruct (Z.eqb_spec b 0); [lia | reflexivity].
Qed.

Lemma shl_nonneg (a n : Z) :
  0 <= a -> 0 <= n -> Ethers.shl a n = Ok (Z.shiftl a n).
Proof.
  intros Ha Hn. unfold Ethers.shl.
  destruct (Z.ltb_spec a 0); [lia |]. destruct (Z.ltb_spec n 0); [lia |].
  reflexivity.
Qed.

Lemma shr_nonneg (a n : Z) :
  0 <= a -> 0 <= n -> Ethers.shr a n = Ok (Z.shiftr a n).
Proof.
  intros Ha Hn. unfold Ethers.shr.
  destruct (Z.ltb_spec a 0); [lia |]. destruct (Z.ltb_spec n 0); [lia |].
  reflexivity.
Qed.

Lemma and_nonneg (a b : Z) :
  0 <= a -> 0 <= b -> Ethers.and a b = Ok (Z.land a b).
Proof.
  intros Ha Hb. unfold Ethers.and.
  destruct (Z.ltb_spec a 0); [lia |]. destruct (Z.ltb_spec b 0); [lia |].
  reflexivity.
Qed.

(** ** Decoding an exchange rate *)

Lemma decodeExchangeRate_Ok (rate : string) (x1 x2 : Z) :
  decodeExchangeRate rate = Ok (x1, x2) ->
  exists er, Ethers.from_string rate = Ok er /\ 0 <= er
             /\ x1 = Z.shiftr er 128 /\ x2 = Z.land er MaxUint128.
Proof.
  unfold decodeExchangeRate. intros H.
  apply bind_inv_Ok in H as (er & Her & H). exists er.
  unfold Ethers.shr, Ethers.and in H.
  destruct (Z.ltb_spec er 0); simpl in H; [discriminate |].
  injection H as <- <-. auto.
Qed.

Lemma decodeExchangeRate_nonneg (rate : string) (x1 x2 : Z) :
  decodeExchangeRate rate = Ok (x1, x2) -> 0 <= x1 /\ 0 <= x2.
Proof.
  intros H. apply decodeExchangeRate_Ok in H as (er & _ & Her & -> & ->).
  split; [now apply Z.shiftr_nonneg | apply Z.land_nonneg; auto].
Qed.

Lemma from_unsigned_Throw (s : string) (e : exn) :
  Ethers.from_unsigned s = Throw e -> from_library e.
Proof.
  unfold Ethers.from_unsigned. intros H msg.
  repeat match type of H with
         | match ?x with _ => _ end = _ => destruct x
         | (if ?b then _ else _) = _ => destruct b
         end; congruence.
Qed.

Lemma from_string_Throw (s : string) (e : exn) :
  Ethers.from_string s = Throw e -> from_library e.
Proof.
  unfold Ethers.from_string. intros H.
  assert (Hsigned : forall body,
    (let! n := Ethers.from_unsigned body in Ok (- n)) = Throw e ->
    from_library e).
  { intros body Hb. apply bind_inv_Throw in Hb as [Hb | (n & _ & Hb)];
      [eauto using from_unsigned_Throw | discriminate]. }
  destruct s as [|c r]; [eauto using from_unsigned_Throw |].
  destruct (Ascii.eqb_spec c "-") as [-> | Hc].
  - apply Hsigned in H. exact H.
  - assert (Hu : Ethers.from_unsigned (String c r) = Throw e).
    { revert H. destruct c as [[] [] [] [] [] [] [] []]; try exact (fun h => h).
      congruence. }
    eauto using from_unsigned_Throw.
Qed.

Lemma decodeExchangeRate_Throw (rate : string) (e : exn) :
  decodeExchangeRate rate = Throw e -> from_library e.
Proof.
  unfold decodeExchangeRate. intros H msg ->.
  apply bind_inv_Throw in H as [H | (er & _ & H)].
  { apply from_string_Throw in H. now apply (H msg). }
  unfold Ethers.shr, Ethers.and in H.
  destruct (er <? 0); simpl in H; discriminate.
Qed.

(** ** Swap math as market maker *)

Section MarketMaker.
Variables (rate : string) (x1 x2 : Z).
Hypothesis Hrate : decodeExchangeRate rate = Ok (x1, x2).

Lemma calculateAmountA_inactive (amountB : Z) :
  x1 = 0 \/ x2 = 0 ->
  calculateAmountA amountB rate = Throw (ThrowString inactive_message).
Proof.
  intros H. unfold calculateAmountA. rewrite Hrate. simpl.
  destruct H as [-> | ->]; simpl; [reflexivity |].
  now rewrite orb_true_r.
Qed.

Lemma calculateAmountB_inactive (amountA : Z) :
  x1 = 0 \/ x2 = 0 ->
  calculateAmountB amountA rate = Throw (ThrowString inactive_message).
Proof.
  intros H. unfold calculateAmountB. rewrite Hrate. simpl.
  destruct H as [-> | ->]; simpl; [reflexivity |].
  now rewrite orb_true_r.
Qed.

Hypothesis Hx1 : 0 < x1.
Hypothesis Hx2 : 0 < x2.

Lemma active_guard : (x1 <=? 0) || (x2 <=? 0) = false.
Proof.
  apply orb_false_iff. split; apply Z.leb_gt; assumption.
Qed.

Lemma calculateAmountA_active (amountB : Z) :
  calculateAmountA amountB rate = Ok (Z.quot (amountB * x1) x2).
Proof.
  unfold calculateAmountA. rewrite Hrate. simpl. rewrite active_guard.
  unfold Ethers.div. destruct (Z.eqb_spec x2 0); [lia | reflexivity].
Qed.

Lemma calculateAmountA_floor (amountB : Z) :
  0 <= amountB ->
  calculateAmountA amountB rate = Ok (amountB * x1 / x2).
Proof.
  intros H. rewrite calculateAmountA_active.
  now rewrite Z.quot_div_nonneg by nia.
Qed.

Lemma calculateAmountB_active (amountA : Z) :
  calculateAmountB amountA rate =
  Ok (Z.quot (amountA * x2) x1
      + (if (amountA * x2) mod x1 >? 0 then 1 else 0)).
Proof.
  unfold calculateAmountB. rewrite Hrate. simpl. rewrite active_guard.
  unfold Ethers.div. destruct (Z.eqb_spec x1 0); [lia |]. simpl.
  rewrite mod_pos by assumption. simpl.
  destruct (_ >? 0); f_equal; lia.
Qed.

Lemma calculateAmountB_ceil (amountA : Z) :
  0 <= amountA ->
  calculateAmountB amountA rate =
  Ok (amountA * x2 / x1 + (if (amountA * x2) mod x1 =? 0 then 0 else 1)).
Proof.
  intros H. rewrite calculateAmountB_active.
  rewrite Z.quot_div_nonneg by nia.
  pose proof (Z.mod_pos_bound (amountA * x2) x1 Hx1).
  destruct (Z.eqb_spec ((amountA * x2) mod x1) 0) as [-> | Hne];
    [reflexivity |].
  destruct (Z.gtb_spec ((amountA * x2) mod x1) 0); [reflexivity | lia].
Qed.

End MarketMaker.

Example rate_3_1_encodes : encodeExchangeRate 3 1 = Ok rate_3_1.
Proof. vm_compute. reflexivity. Qed.

Example rate_3_1_decodes : decodeExchangeRate rate_3_1 = Ok (3, 1).
Proof. vm_compute. reflexivity. Qed.

Example rate_1_1_decodes : decodeExchangeRate rate_1_1 = Ok (1, 1).
Proof. vm_compute. reflexivity. Qed.

Example rate_0_5_decodes : decodeExchangeRate rate_0_5 = Ok (0, 5).
Proof. vm_compute. reflexivity. Qed.

Example rate_0_5_inactive :
  exchangeRateIsNonzero rate_0_5 = Ok false
  /\ calculateAmountA 10 rate_0_5 = Throw (ThrowString inactive_message)
  /\ calculateAmountB 10 rate_0_5 = Throw (ThrowString inactive_message).
Proof. repeat split; vm_compute; reflexivity. Qed.

(** C4. For a non-negative amountA and a rate that decodes to (x1, x2) with
    x1 > 0 and x2 > 0, calculateAmountB returns floor(amountA * x2 / x1)
    plus 1 exactly when the remainder of that division is not zero, and
    this is the quotient rounded up; with a rate (3, 1), amountA = 9
    gives 3. *)
Theorem C4_calculateAmountB_rounds_up :
  (forall (amountA : Z) (rate : string) (x1 x2 : Z),
      0 <= amountA ->
      decodeExchangeRate rate = Ok (x1, x2) -> 0 < x1 -> 0 < x2 ->
      exists amountB,
        calculateAmountB amountA rate = Ok amountB
        /\ amountB = amountA * x2 / x1
                     + (if (amountA * x2) mod x1 =? 0 then 0 else 1)
        /\ is_floor (amountA * x2 / x1) (amountA * x2) x1
        /\ is_ceil amountB (amountA * x2) x1)
  /\ (forall rate : string,
         decodeExchangeRate rate = Ok (3, 1) ->
         calculateAmountB 9 rate = Ok 3).
Proof.
  split.
  - intros amountA rate x1 x2 Ha Hrate Hx1 Hx2.
    eexists. split; [exact (calculateAmountB_ceil rate x1 x2 Hrate Hx1 Hx2 amountA Ha) |].
    split; [reflexivity |].
    split; [now apply is_floor_div | now apply is_ceil_div].
  - intros rate Hrate.
    now rewrite (calculateAmountB_ceil rate 3 1 Hrate) by lia.
Qed.

Lemma C4_witness :
  (0 <= 10 /\ decodeExchangeRate rate_3_1 = Ok (3, 1) /\ 0 < 3 /\ 0 < 1)
  /\ (exists amountB,
         calculateAmountB 10 rate_3_1 = Ok amountB
         /\ amountB = 10 * 1 / 3 + (if (10 * 1) mod 3 =? 0 then 0 else 1)
         /\ is_floor (10 * 1 / 3) (10 * 1) 3
         /\ is_ceil amountB (10 * 1) 3)
  /\ calculateAmountB 9 rate_3_1 = Ok 3.
Proof.
  assert (Hrate : decodeExchangeRate rate_3_1 = Ok (3, 1))
    by (vm_compute; reflexivity).
  split; [repeat split; first [lia | exact Hrate] | split].
  - apply (proj1 C4_calculateAmountB_rounds_up 10 rate_3_1 3 1);
      [lia | exact Hrate | lia | lia].
  - apply (proj2 C4_calculateAmountB_rounds_up rate_3_1 Hrate).
Defined.

(** C5. For a non-negative amountB and a rate that decodes to (x1, x2)
    with x1 > 0 and x2 > 0, calculateAmountA returns
    floor(amountB * x1 / x2); with a rate (3, 1), amountB = 10 gives 30
    and calculateAmountB of 10 gives 4. *)
Theorem C5_calculateAmountA_rounds_down :
  (forall (amountB : Z) (rate : string) (x1 x2 : Z),
      0 <= amountB ->
      decodeExchangeRate rate = Ok (x1, x2) -> 0 < x1 -> 0 < x2 ->
      calculateAmountA amountB rate = Ok (amountB * x1 / x2)
      /\ is_floor (amountB * x1 / x2) (amountB * x1) x2)
  /\ (forall rate : string,
         decodeExchangeRate rate = Ok (3, 1) ->
         calculateAmountA 10 rate = Ok 30
         /\ calculateAmountB 10 rate = Ok 4
         /\ is_ceil 4 (10 * 1) 3).
Proof.
  split.
  - intros amountB rate x1 x2 Hb Hrate Hx1 Hx2.
    split; [exact (calculateAmountA_floor rate x1 x2 Hrate Hx1 Hx2 amountB Hb) |].
    now apply is_floor_div.
  - intros rate Hrate.
    rewrite (calculateAmountA_floor rate 3 1 Hrate) by lia.
    rewrite (calculateAmountB_ceil rate 3 1 Hrate) by lia.
    repeat split; unfold is_ceil; lia.
Qed.

Lemma C5_witness :
  (0 <= 7 /\ decodeExchangeRate rate_3_1 = Ok (3, 1) /\ 0 < 3 /\ 0 < 1)
  /\ (calculateAmountA 7 rate_3_1 = Ok (7 * 3 / 1)
      /\ is_floor (7 * 3 / 1) (7 * 3) 1)
  /\ (calculateAmountA 10 rate_3_1 = Ok 30
      /\ calculateAmountB 10 rate_3_1 = Ok 4
      /\ is_ceil 4 (10 * 1) 3).
Proof.
  assert (Hrate : decodeExchangeRate rate_3_1 = Ok (3, 1))
    by (vm_compute; reflexivity).
  split; [repeat split; first [lia | exact Hrate] | split].
  - apply (proj1 C5_calculateAmountA_rounds_down 7 rate_3_1 3 1);
      [lia | exact Hrate | lia | lia].
  - apply (proj2 C5_calculateAmountA_rounds_down rate_3_1 Hrate).
Defined.

(** C6. Whatever the amount, calculateAmountA and calculateAmountB throw
    the inactive-rate error exactly when the rate decodes to (x1, x2) with
    x1 = 0 or x2 = 0; in that case neither returns an amount. *)
Theorem C6_inactive_rate_throws (amount : Z) (rate : string) :
  (calculateAmountA amount rate = Throw (ThrowString inactive_message)
   <-> exists x1 x2,
         decodeExchangeRate rate = Ok (x1, x2) /\ (x1 = 0 \/ x2 = 0))
  /\ (calculateAmountB amount rate = Throw (ThrowString inactive_message)
      <-> exists x1 x2,
            decodeExchangeRate rate = Ok (x1, x2) /\ (x1 = 0 \/ x2 = 0)).
Proof.
  assert (Hzero : forall x1 x2,
             decodeExchangeRate rate = Ok (x1, x2) ->
             ~ (x1 = 0 \/ x2 = 0) -> 0 < x1 /\ 0 < x2).
  { intros x1 x2 H Hn. apply decodeExchangeRate_nonneg in H. lia. }
  split; split.
  - intros H. destruct (decodeExchangeRate rate) as [[x1 x2]|e] eqn:Hrate.
    + exists x1, x2. split; [reflexivity |].
      destruct (Z.eq_dec x1 0); [auto |]. destruct (Z.eq_dec x2 0); [auto |].
      destruct (Hzero x1 x2 eq_refl) as [Hx1 Hx2]; [lia |].
      rewrite (calculateAmountA_active rate x1 x2 Hrate Hx1 Hx2) in H.
      discriminate.
    + unfold calculateAmountA in H. rewrite Hrate in H. simpl in H.
      injection H as ->.
      now destruct (decodeExchangeRate_Throw rate _ Hrate inactive_message).
  - intros (x1 & x2 & Hrate & H).
    exact (calculateAmountA_inactive rate x1 x2 Hrate amount H).
  - intros H. destruct (decodeExchangeRate rate) as [[x1 x2]|e] eqn:Hrate.
    + exists x1, x2. split; [reflexivity |].
      destruct (Z.eq_dec x1 0); [auto |]. destruct (Z.eq_dec x2 0); [auto |].
      destruct (Hzero x1 x2 eq_refl) as [Hx1 Hx2]; [lia |].
      rewrite (calculateAmountB_active rate x1 x2 Hrate Hx1 Hx2) in H.
      discriminate.
    + unfold calculateAmountB in H. rewrite Hrate in H. simpl in H.
      injection H as ->.
      now destruct (decodeExchangeRate_Throw rate _ Hrate inactive_message).
  - intros (x1 & x2 & Hrate & H).
    exact (calculateAmountB_inactive rate x1 x2 Hrate amount H).
Qed.

(** ** Swap math as market taker *)

Lemma calculateMarketOrderExactAMT_active
  (amountAMT : Z) (rate : string) (x1 x2 feePPM : Z) :
  0 <= amountAMT ->
  decodeExchangeRate rate = Ok (x1, x2) -> 0 < x1 -> 0 < x2 ->
  0 <= feePPM < MAX_PPM ->
  let amountBMM :=
    amountAMT * x2 / x1 + (if (amountAMT * x2) mod x1 =? 0 then 0 else 1) in
  let amountBMT := amountBMM * MAX_PPM / (MAX_PPM - feePPM) in
  calculateMarketOrderExactAMT amountAMT rate feePPM =
  Ok {| ExactAMT.amountAMM := amountAMT;
        ExactAMT.amountBMM := amountBMM;
        ExactAMT.amountBMT := amountBMT;
        ExactAMT.amountBFR := amountBMT * feePPM / MAX_PPM |}.
Proof.
  intros Ha Hrate Hx1 Hx2 Hfee amountBMM amountBMT.
  unfold calculateMarketOrderExactAMT.
  rewrite (calculateAmountB_ceil rate x1 x2 Hrate Hx1 Hx2 amountAMT Ha).
  cbn [bind]. fold amountBMM.
  assert (HBMM : 0 <= amountBMM).
  { pose proof (is_ceil_div (amountAMT * x2) x1 Hx1) as Hc.
    unfold is_ceil in Hc. fold amountBMM in Hc. nia. }
  unfold MAX_PPM in *.
  rewrite div_floor by lia. cbn [bind]. fold amountBMT.
  assert (HBMT : 0 <= amountBMT).
  { apply Z.div_pos; lia. }
  rewrite div_floor by nia. reflexivity.
Qed.

(** C1 (amended). For a non-negative amountAMT, a rate that decodes to
    (x1, x2) with x1 > 0 and x2 > 0, and 0 <= feePPM < 1_000_000,
    calculateMarketOrderExactAMT returns amountAMM = amountAMT,
    amountBMM = ceil(amountAMT * x2 / x1),
    amountBMT = floor(amountBMM * 1_000_000 / (1_000_000 - feePPM)) and
    amountBFR = floor(amountBMT * feePPM / 1_000_000); with a rate (1, 1)
    and feePPM = 10_000, amountAMT = 100 gives amountBMM = 100,
    amountBMT = 101 and amountBFR = 1. *)
Theorem C1_exactAMT_amounts :
  (forall (amountAMT : Z) (rate : string) (x1 x2 feePPM : Z),
      0 <= amountAMT ->
      decodeExchangeRate rate = Ok (x1, x2) -> 0 < x1 -> 0 < x2 ->
      0 <= feePPM < 1000000 ->
      exists r,
        calculateMarketOrderExactAMT amountAMT rate feePPM = Ok r
        /\ ExactAMT.amountAMM r = amountAMT
        /\ is_ceil (ExactAMT.amountBMM r) (amountAMT * x2) x1
        /\ ExactAMT.amountBMT r
           = ExactAMT.amountBMM r * 1000000 / (1000000 - feePPM)
        /\ is_floor (ExactAMT.amountBMT r)
             (ExactAMT.amountBMM r * 1000000) (1000000 - feePPM)
        /\ ExactAMT.amountBFR r = ExactAMT.amountBMT r * feePPM / 1000000
        /\ is_floor (ExactAMT.amountBFR r)
             (ExactAMT.amountBMT r * feePPM) 1000000)
  /\ (forall rate : string,
         decodeExchangeRate rate = Ok (1, 1) ->
         calculateMarketOrderExactAMT 100 rate 10000 =
         Ok {| ExactAMT.amountAMM := 100; ExactAMT.amountBMM := 100;
               ExactAMT.amountBMT := 101; ExactAMT.amountBFR := 1 |}).
Proof.
  split.
  - intros amountAMT rate x1 x2 feePPM Ha Hrate Hx1 Hx2 Hfee.
    eexists. split.
    { apply (calculateMarketOrderExactAMT_active _ _ x1 x2);
        unfold MAX_PPM; auto. }
    simpl. unfold MAX_PPM.
    repeat split; try (apply is_floor_div; lia);
      apply (is_ceil_div (amountAMT * x2) x1 Hx1).
  - intros rate Hrate.
    rewrite (calculateMarketOrderExactAMT_active 100 rate 1 1 10000);
      unfold MAX_PPM; try lia; auto.
Qed.

Lemma C1_witness :
  (0 <= 10 /\ decodeExchangeRate rate_3_1 = Ok (3, 1) /\ 0 < 3 /\ 0 < 1
   /\ 0 <= 3000 < 1000000 /\ decodeExchangeRate rate_1_1 = Ok (1, 1))
  /\ (exists r,
      calculateMarketOrderExactAMT 10 rate_3_1 3000 = Ok r
      /\ ExactAMT.amountAMM r = 10
      /\ is_ceil (ExactAMT.amountBMM r) (10 * 1) 3
      /\ ExactAMT.amountBMT r
         = ExactAMT.amountBMM r * 1000000 / (1000000 - 3000)
      /\ is_floor (ExactAMT.amountBMT r)
           (ExactAMT.amountBMM r * 1000000) (1000000 - 3000)
      /\ ExactAMT.amountBFR r = ExactAMT.amountBMT r * 3000 / 1000000
      /\ is_floor (ExactAMT.amountBFR r)
           (ExactAMT.amountBMT r * 3000) 1000000)
  /\ calculateMarketOrderExactAMT 100 rate_1_1 10000 =
     Ok {| ExactAMT.amountAMM := 100; ExactAMT.amountBMM := 100;
           ExactAMT.amountBMT := 101; ExactAMT.amountBFR := 1 |}.
Proof.
  assert (H31 : decodeExchangeRate rate_3_1 = Ok (3, 1))
    by (vm_compute; reflexivity).
  assert (H11 : decodeExchangeRate rate_1_1 = Ok (1, 1))
    by (vm_compute; reflexivity).
  split; [repeat split; first [lia | exact H31 | exact H11] | split].
  - apply (proj1 C1_exactAMT_amounts 10 rate_3_1 3 1 3000);
      [lia | exact H31 | lia | lia | lia].
  - apply (proj2 C1_exactAMT_amounts rate_1_1 H11).
Defined.

(** C1, as stated, fails: at rate (1, 1), feePPM = 10_000 and
    amountAMT = 100 the code returns amountBMT = 101, the quotient
    100_000_000 / 990_000 rounded down, where the rounded-up quotient of
    the claim is 102. *)
Lemma C1_counterexample :
  calculateMarketOrderExactAMT 100 rate_1_1 10000 =
  Ok {| ExactAMT.amountAMM := 100; ExactAMT.amountBMM := 100;
        ExactAMT.amountBMT := 101; ExactAMT.amountBFR := 1 |}
  /\ is_ceil 102 (100 * 1000000) (1000000 - 10000)
  /\ ~ is_ceil 101 (100 * 1000000) (1000000 - 10000).
Proof.
  split; [vm_compute; reflexivity |]. unfold is_ceil. lia.
Qed.

(** C10. For a non-negative amountBMT, 0 <= feePPM <= 1_000_000 and a rate
    that decodes to (x1, x2) with x1 > 0 and x2 > 0,
    calculateMarketOrderExactBMT returns with amountBFR <= amountBMT, so
    amountBMM = amountBMT - amountBFR is not negative, and with
    amountAMT = amountAMM; the last holds for whatever it returns. *)
Theorem C10_exactBMT_fee_bounded :
  (forall (amountBMT : Z) (rate : string) (x1 x2 feePPM : Z),
      0 <= amountBMT -> 0 <= feePPM <= 1000000 ->
      decodeExchangeRate rate = Ok (x1, x2) -> 0 < x1 -> 0 < x2 ->
      exists r,
        calculateMarketOrderExactBMT amountBMT rate feePPM = Ok r
        /\ ExactBMT.amountBFR r = amountBMT * feePPM / 1000000
        /\ 0 <= ExactBMT.amountBFR r <= amountBMT
        /\ ExactBMT.amountBMM r = amountBMT - ExactBMT.amountBFR r
        /\ 0 <= ExactBMT.amountBMM r
        /\ ExactBMT.amountAMM r = ExactBMT.amountBMM r * x1 / x2
        /\ ExactBMT.amountAMT r = ExactBMT.amountAMM r)
  /\ (forall (amountBMT : Z) (rate : string) (feePPM : Z) (r : ExactBMT.t),
         calculateMarketOrderExactBMT amountBMT rate feePPM = Ok r ->
         ExactBMT.amountAMT r = ExactBMT.amountAMM r).
Proof.
  split.
  - intros amountBMT rate x1 x2 feePPM Hb Hfee Hrate Hx1 Hx2.
    unfold calculateMarketOrderExactBMT, MAX_PPM.
    rewrite div_floor by nia. cbn [bind].
    assert (Hq : 0 <= amountBMT * feePPM / 1000000 <= amountBMT).
    { split; [apply Z.div_pos; nia |].
      apply Z.div_le_upper_bound; nia. }
    rewrite (calculateAmountA_floor rate x1 x2 Hrate Hx1 Hx2) by lia.
    cbn [bind]. eexists. split; [reflexivity |]. cbn.
    repeat split; lia.
  - intros amountBMT rate feePPM r H.
    unfold calculateMarketOrderExactBMT in H.
    apply bind_inv_Ok in H as (fee & _ & H).
    apply bind_inv_Ok in H as (amm & _ & H).
    injection H as <-. reflexivity.
Qed.

Lemma C10_witness :
  (0 <= 100 /\ 0 <= 10000 <= 1000000
   /\ decodeExchangeRate rate_1_1 = Ok (1, 1) /\ 0 < 1)
  /\ (exists r,
      calculateMarketOrderExactBMT 100 rate_1_1 10000 = Ok r
      /\ ExactBMT.amountBFR r = 100 * 10000 / 1000000
      /\ 0 <= ExactBMT.amountBFR r <= 100
      /\ ExactBMT.amountBMM r = 100 - ExactBMT.amountBFR r
      /\ 0 <= ExactBMT.amountBMM r
      /\ ExactBMT.amountAMM r = ExactBMT.amountBMM r * 1 / 1
      /\ ExactBMT.amountAMT r = ExactBMT.amountAMM r)
  /\ ExactBMT.amountAMT
       {| ExactBMT.amountAMM := 99; ExactBMT.amountAMT := 99;
          ExactBMT.amountBMM := 99; ExactBMT.amountBFR := 1 |}
     = ExactBMT.amountAMM
         {| ExactBMT.amountAMM := 99; ExactBMT.amountAMT := 99;
            ExactBMT.amountBMM := 99; ExactBMT.amountBFR := 1 |}.
Proof.
  assert (H11 : decodeExchangeRate rate_1_1 = Ok (1, 1))
    by (vm_compute; reflexivity).
  split; [repeat split; first [lia | exact H11] | split].
  - apply (proj1 C10_exactBMT_fee_bounded 100 rate_1_1 1 1 10000);
      [lia | lia | exact H11 | lia | lia].
  - apply (proj2 C10_exactBMT_fee_bounded 100 rate_1_1 10000).
    vm_compute; reflexivity.
Defined.

(** ** Swap fees *)




(** Every entry is read or unread. *)
Lemma entry_cases (fees : gmap string (gmap string SwapFee))
  (tokenA tokenB : string) :
  (exists fee, entry_reads fees tokenA tokenB fee)
  \/ entry_unread fees tokenA tokenB.
Proof.
  unfold entry_reads, entry_unread.
  destruct (fee_entry fees tokenA tokenB) as [value|]; [| auto].
  destruct (Ethers.from value) as [fee|e] eqn:Hfrom; eauto 6.
Qed.




(** ** Decimals and relative amounts *)

Lemma parse_from_app (radix acc : Z) (s t : string) :
  parse_from radix acc (s ++ t) = parse_from radix (parse_from radix acc s) t.
Proof.
  revert acc. induction s as [|c s IH]; intros acc; simpl; [reflexivity |].
  apply IH.
Qed.

Lemma all_app (p : ascii -> bool) (s t : string) :
  all p (s ++ t) = all p s && all p t.
Proof.
  induction s as [|c s IH]; simpl; [reflexivity |].
  now rewrite IH, andb_assoc.
Qed.

Lemma append_zeros_digits (turns : nat) (s : string) :
  all is_digit s = true ->
  all is_digit (append_zeros turns s) = true
  /\ parse 10 (append_zeros turns s) = parse 10 s * 10 ^ Z.of_nat turns.
Proof.
  revert s. induction turns as [|k IH]; intros s Hs.
  - simpl. split; [assumption | lia].
  - cbn [append_zeros].
    destruct (IH (s ++ "0")) as [Hall Hparse].
    { rewrite all_app, Hs. reflexivity. }
    split; [assumption |]. rewrite Hparse.
    unfold parse. rewrite parse_from_app. cbn [parse_from].
    change (digit_value "0") with 0.
    rewrite Nat2Z.inj_succ, Z.pow_succ_r by lia. lia.
Qed.

Lemma append_zeros_head (turns : nat) (c : ascii) (s : string) :
  exists r, append_zeros turns (String c s) = String c r.
Proof.
  revert s. induction turns as [|k IH]; intros s; simpl; eauto.
Qed.

Lemma decimalsToAmount_power (decimals : Z) :
  0 <= decimals < Ethers.MAX_SAFE_INTEGER ->
  decimalsToAmount decimals = Ok (10 ^ decimals).
Proof.
  intros Hd. unfold decimalsToAmount, Ethers.from_number, Ethers.toNumber.
  assert (Hmax : Ethers.MAX_SAFE_INTEGER = 9007199254740991) by reflexivity.
  destruct (Z.leb_spec Ethers.MAX_SAFE_INTEGER decimals); [lia |].
  destruct (Z.leb_spec decimals (- Ethers.MAX_SAFE_INTEGER)); [lia |].
  cbn [orb bind].
  destruct (Z.leb_spec (Z.abs decimals) Ethers.MAX_SAFE_INTEGER); [| lia].
  cbn [bind].
  destruct (append_zeros_digits (Z.to_nat decimals) "1" eq_refl)
    as [Hall Hparse].
  destruct (append_zeros_head (Z.to_nat decimals) "1" "") as [r Hr].
  rewrite Hr in Hall, Hparse. cbv zeta. rewrite Hr.
  change (Ethers.from_string (String "1" r))
    with (if all is_digit (String "1" r) then Ok (parse 10 (String "1" r))
          else Throw (InvalidArgument "invalid BigNumber string")).
  rewrite Hall, Hparse. rewrite Z2Nat.id by lia.
  change (parse 10 "1") with 1. f_equal. lia.
Qed.

(** C9. For amounts amountA > 0 and amountB > 0 and decimals that are
    unsigned safe integers, calculateRelativeAmounts returns
    amountAperB = floor(amountA * 10^decimalsB / amountB) and
    amountBperA = floor(amountB * 10^decimalsA / amountA); when amountA = 0
    or amountB = 0 it throws the division-by-zero fault of ethers, and
    whatever the decimals it returns nothing, so no 0 either. *)
Theorem C9_relative_amounts :
  (forall amountA decimalsA amountB decimalsB : Z,
      0 < amountA -> 0 < amountB ->
      0 <= decimalsA < Ethers.MAX_SAFE_INTEGER ->
      0 <= decimalsB < Ethers.MAX_SAFE_INTEGER ->
      calculateRelativeAmounts amountA decimalsA amountB decimalsB
      = Ok {| amountAperB := amountA * 10 ^ decimalsB / amountB;
              amountBperA := amountB * 10 ^ decimalsA / amountA |}
      /\ is_floor (amountA * 10 ^ decimalsB / amountB)
           (amountA * 10 ^ decimalsB) amountB
      /\ is_floor (amountB * 10 ^ decimalsA / amountA)
           (amountB * 10 ^ decimalsA) amountA)
  /\ (forall amountA decimalsA amountB decimalsB : Z,
         0 <= decimalsA < Ethers.MAX_SAFE_INTEGER ->
         0 <= decimalsB < Ethers.MAX_SAFE_INTEGER ->
         amountA = 0 \/ amountB = 0 ->
         calculateRelativeAmounts amountA decimalsA amountB decimalsB
         = Throw (NumericFault "division-by-zero" "div"))
  /\ (forall (amountA decimalsA amountB decimalsB : Z) (r : RelativeAmounts),
         amountA = 0 \/ amountB = 0 ->
         calculateRelativeAmounts amountA decimalsA amountB decimalsB
         <> Ok r).
Proof.
  split; [| split].
  - intros amountA decimalsA amountB decimalsB Ha Hb HdA HdB.
    unfold calculateRelativeAmounts.
    rewrite !decimalsToAmount_power by assumption. cbn [bind].
    assert (0 < 10 ^ decimalsA) by (apply Z.pow_pos_nonneg; lia).
    assert (0 < 10 ^ decimalsB) by (apply Z.pow_pos_nonneg; lia).
    rewrite div_floor by nia. cbn [bind].
    rewrite div_floor by nia. cbn [bind].
    repeat split; apply is_floor_div; assumption.
  - intros amountA decimalsA amountB decimalsB HdA HdB Hzero.
    unfold calculateRelativeAmounts.
    rewrite !decimalsToAmount_power by assumption. cbn [bind].
    destruct (Z.eq_dec amountB 0) as [-> | HneB]; [reflexivity |].
    destruct Hzero as [-> | ->]; [| contradiction].
    unfold Ethers.div at 1.
    destruct (Z.eqb_spec amountB 0); [contradiction |]. reflexivity.
  - intros amountA decimalsA amountB decimalsB r Hzero H.
    unfold calculateRelativeAmounts in H.
    apply bind_inv_Ok in H as (unitB & _ & H).
    apply bind_inv_Ok in H as (q1 & Hq1 & H).
    apply bind_inv_Ok in H as (unitA & _ & H).
    apply bind_inv_Ok in H as (q2 & Hq2 & _).
    destruct Hzero as [-> | ->]; discriminate.
Qed.

Lemma C9_witness :
  (0 < 100 /\ 0 < 200 /\ 0 <= 18 < Ethers.MAX_SAFE_INTEGER
   /\ 0 <= 6 < Ethers.MAX_SAFE_INTEGER)
  /\ (calculateRelativeAmounts 100 18 200 6
   = Ok {| amountAperB := 100 * 10 ^ 6 / 200;
           amountBperA := 200 * 10 ^ 18 / 100 |}
   /\ is_floor (100 * 10 ^ 6 / 200) (100 * 10 ^ 6) 200
   /\ is_floor (200 * 10 ^ 18 / 100) (200 * 10 ^ 18) 100)
  /\ calculateRelativeAmounts 0 18 200 6
     = Throw (NumericFault "division-by-zero" "div")
  /\ calculateRelativeAmounts 100 18 0 6
     = Throw (NumericFault "division-by-zero" "div").
Proof.
  split; [unfold Ethers.MAX_SAFE_INTEGER; lia |].
  split; [| split].
  - apply (proj1 C9_relative_amounts 100 18 200 6);
      unfold Ethers.MAX_SAFE_INTEGER; lia.
  - apply (proj1 (proj2 C9_relative_amounts) 0 18 200 6);
      unfold Ethers.MAX_SAFE_INTEGER; [lia | lia | left; reflexivity].
  - apply (proj1 (proj2 C9_relative_amounts) 100 18 0 6);
      unfold Ethers.MAX_SAFE_INTEGER; [lia | lia | right; reflexivity].
Defined.

(** ** Printing and parsing digits *)

Lemma append_cons (c : ascii) (s t : string) :
  String c s ++ t = String c (s ++ t).
Proof. reflexivity. Qed.

Lemma append_nil (t : string) : "" ++ t = t.
Proof. reflexivity. Qed.

(** Appending to a literal, character by character. *)
Ltac string_cons := rewrite ?append_cons, ?append_nil.

Lemma length_app_string (s t : string) :
  String.length (s ++ t) = (String.length s + String.length t)%nat.
Proof. induction s as [|c s IH]; simpl; [reflexivity | now rewrite IH]. Qed.

Lemma digit_cases (d : Z) :
  0 <= d < 16 ->
  In d [0; 1; 2; 3; 4; 5; 6; 7; 8; 9; 10; 11; 12; 13; 14; 15].
Proof. intros H. simpl. lia. Qed.

Lemma digit_value_char (d : Z) :
  0 <= d < 16 -> digit_value (digit_char d) = d.
Proof.
  intros H. apply digit_cases in H. simpl in H.
  repeat (destruct H as [<- | H]; [reflexivity |]). contradiction.
Qed.

Lemma digit_char_lower_hex (d : Z) :
  0 <= d < 16 -> is_lower_hex (digit_char d) = true.
Proof.
  intros H. apply digit_cases in H. simpl in H.
  repeat (destruct H as [<- | H]; [reflexivity |]). contradiction.
Qed.

Lemma lower_hex_is_hex (c : ascii) : is_lower_hex c = true -> is_hex c = true.
Proof. unfold is_lower_hex, is_hex. intros ->. reflexivity. Qed.

Lemma all_impl (p q : ascii -> bool) (s : string) :
  (forall c, p c = true -> q c = true) -> all p s = true -> all q s = true.
Proof.
  intros Hpq. induction s as [|c s IH]; simpl; [reflexivity |].
  intros [Hc Hs]%andb_true_iff. now rewrite (Hpq c Hc), IH.
Qed.

Lemma all_lower_hex_is_hex (s : string) :
  all is_lower_hex s = true -> all is_hex s = true.
Proof. apply all_impl, lower_hex_is_hex. Qed.

Lemma digit_value_range (c : ascii) : 0 <= digit_value c < 16.
Proof.
  unfold digit_value, is_digit, is_lower_af, is_upper_AF, between.
  change (code "0") with 48. change (code "9") with 57.
  change (code "a") with 97. change (code "f") with 102.
  change (code "A") with 65. change (code "F") with 70.
  repeat match goal with
         | |- context [?a <=? ?b] => destruct (Z.leb_spec a b)
         end; cbn [andb]; lia.
Qed.

Section Digits.
Variable radix : Z.
Hypothesis radix_range : 2 <= radix <= 16.

Lemma digits_le_spec (fuel : nat) (n : Z) :
  0 <= n < radix ^ Z.of_nat fuel ->
  digits_ok radix (digits_le radix fuel n)
  /\ value_le radix (digits_le radix fuel n) = n.
Proof.
  revert n. induction fuel as [|f IH]; intros n Hn.
  - simpl in *. split; [constructor | lia].
  - cbn [digits_le]. destruct (Z.eqb_spec n 0) as [-> | Hne].
    + split; [constructor | reflexivity].
    + rewrite Nat2Z.inj_succ, Z.pow_succ_r in Hn by lia.
      destruct (IH (n / radix)) as [Hok Hval].
      { split; [apply Z.div_pos; lia |].
        apply Z.div_lt_upper_bound; lia. }
      split.
      * constructor; [apply Z.mod_pos_bound; lia | assumption].
      * cbn [value_le fold_right]. fold (value_le radix (digits_le radix f (n / radix))).
        rewrite Hval. pose proof (Z.div_mod n radix ltac:(lia)). lia.
Qed.

(** The number of digits: at most [k] exactly when the number is below
    [radix ^ k]. *)
Lemma digits_le_length (fuel : nat) (n : Z) (k : nat) :
  0 <= n < radix ^ Z.of_nat fuel ->
  (List.length (digits_le radix fuel n) <= k)%nat <-> n < radix ^ Z.of_nat k.
Proof.
  revert n k. induction fuel as [|f IH]; intros n k Hn.
  - simpl in *. assert (n = 0) as -> by lia.
    split; [intros _; apply Z.pow_pos_nonneg; lia | lia].
  - cbn [digits_le]. destruct (Z.eqb_spec n 0) as [-> | Hne].
    + simpl. split; [intros _; apply Z.pow_pos_nonneg; lia | lia].
    + rewrite Nat2Z.inj_succ, Z.pow_succ_r in Hn by lia.
      assert (Hq : 0 <= n / radix < radix ^ Z.of_nat f).
      { split; [apply Z.div_pos; lia |].
        apply Z.div_lt_upper_bound; lia. }
      cbn [List.length]. destruct k as [|k].
      * simpl. split; [lia | intros; lia].
      * rewrite Nat2Z.inj_succ, Z.pow_succ_r by lia.
        specialize (IH (n / radix) k Hq).
        pose proof (Z.div_mod n radix ltac:(lia)).
        pose proof (Z.mod_pos_bound n radix ltac:(lia)).
        split.
        -- intros Hlen. assert (Hk : n / radix < radix ^ Z.of_nat k)
             by (apply IH; lia). nia.
        -- intros Hlt. apply le_n_S, IH.
           apply Z.div_lt_upper_bound; lia.
Qed.

Lemma fuel_enough (n : Z) :
  0 <= n -> 0 <= n < radix ^ Z.of_nat (S (Z.to_nat (Z.log2 n))).
Proof.
  intros Hn. split; [assumption |].
  rewrite Nat2Z.inj_succ, Z2Nat.id by apply Z.log2_nonneg.
  destruct (Z.eq_dec n 0) as [-> | Hne].
  - apply Z.pow_pos_nonneg; [lia | simpl; lia].
  - pose proof (Z.log2_spec n ltac:(lia)) as [_ Hlt].
    apply Z.lt_le_trans with (1 := Hlt).
    apply Z.pow_le_mono_l. pose proof (Z.log2_nonneg n). lia.
Qed.

Lemma of_digits_app (xs ys : list Z) :
  of_digits (xs ++ ys)%list = of_digits xs ++ of_digits ys.
Proof.
  induction xs as [|x xs IH]; [reflexivity |].
  change (String (digit_char x) (of_digits (xs ++ ys)%list)
          = String (digit_char x) (of_digits xs ++ of_digits ys)).
  now rewrite IH.
Qed.

Lemma of_digits_length (ds : list Z) :
  String.length (of_digits ds) = List.length ds.
Proof.
  induction ds as [|d ds IH]; [reflexivity |].
  change (S (String.length (of_digits ds)) = S (List.length ds)).
  now rewrite IH.
Qed.

Lemma of_digits_rev (ds : list Z) :
  digits_ok radix ds ->
  parse radix (of_digits (rev ds)) = value_le radix ds
  /\ all is_lower_hex (of_digits (rev ds)) = true.
Proof.
  intros Hok. induction Hok as [|d ds Hd Hok [IHv IHa]].
  - split; reflexivity.
  - cbn [rev]. rewrite of_digits_app. split.
    + unfold parse in *. rewrite parse_from_app, IHv.
      cbn [of_digits fold_right parse_from].
      rewrite digit_value_char by lia. cbn [value_le fold_right].
      fold (value_le radix ds). lia.
    + rewrite all_app, IHa. cbn [of_digits fold_right all].
      rewrite digit_char_lower_hex by lia. reflexivity.
Qed.

(** What [print] prints reads back as the number, in lower case, and
    has at most [k] digits exactly when the number is below
    [radix ^ k]. *)
Lemma print_spec (n : Z) :
  0 <= n ->
  parse radix (print radix n) = n
  /\ all is_lower_hex (print radix n) = true
  /\ print radix n <> ""
  /\ forall k, (1 <= k)%nat ->
       (String.length (print radix n) <= k)%nat <-> n < radix ^ Z.of_nat k.
Proof.
  intros Hn. unfold print.
  pose proof (fuel_enough n Hn) as Hfuel.
  destruct (digits_le_spec _ n Hfuel) as [Hok Hval].
  pose proof (fun k => digits_le_length _ n k Hfuel) as Hlen.
  destruct (of_digits_rev _ Hok) as [Hparse Hall].
  pose proof (of_digits_length (rev (digits_le radix
                (S (Z.to_nat (Z.log2 n))) n))) as Hsize.
  rewrite length_rev in Hsize.
  destruct (rev (digits_le radix (S (Z.to_nat (Z.log2 n))) n))
    as [|d ds] eqn:Hrev.
  - assert (Hnil : digits_le radix (S (Z.to_nat (Z.log2 n))) n = []).
    { apply (f_equal (@rev Z)) in Hrev. now rewrite rev_involutive in Hrev. }
    rewrite Hnil in Hval. simpl in Hval. subst n.
    repeat split; try reflexivity; try discriminate.
    + intros _. apply Z.pow_pos_nonneg; lia.
    + intros _. simpl. lia.
  - repeat split.
    + rewrite Hparse. exact Hval.
    + exact Hall.
    + discriminate.
    + intros Hk. apply Hlen. lia.
    + intros Hk. apply Hlen in Hk. lia.
Qed.

End Digits.

(** ** Hex strings and bytes *)

Lemma toHexString_nonneg (n : Z) :
  0 <= n -> Ethers.toHexString n = "0x" ++ even_hex n.
Proof.
  intros Hn. unfold Ethers.toHexString, Ethers.toHex, even_hex.
  destruct (Z.ltb_spec n 0); [lia |].
  destruct (Nat.odd _); reflexivity.
Qed.

Lemma even_hex_spec (n : Z) :
  0 <= n ->
  Nat.even (String.length (even_hex n)) = true
  /\ parse 16 (even_hex n) = n
  /\ all is_lower_hex (even_hex n) = true
  /\ forall k, (1 <= k)%nat ->
       (String.length (even_hex n) <= 2 * k)%nat <-> n < 256 ^ Z.of_nat k.
Proof.
  intros Hn. destruct (print_spec 16 ltac:(lia) n Hn)
    as (Hparse & Hall & _ & Hlen).
  assert (Hpow : forall k, 256 ^ Z.of_nat k = 16 ^ Z.of_nat (2 * k)).
  { intros k. rewrite Nat2Z.inj_mul, Z.pow_mul_r by lia. reflexivity. }
  unfold even_hex.
  destruct (Nat.odd (String.length (print 16 n))) eqn:Hodd.
  - string_cons. cbn [String.length all is_lower_hex]. repeat split.
    + rewrite Nat.even_succ. exact Hodd.
    + exact Hparse.
    + exact Hall.
    + intros Hk. rewrite Hpow. apply Hlen; lia.
    + intros Hk. rewrite Hpow in Hk. apply Hlen in Hk; [| lia].
      apply Nat.odd_spec in Hodd as [m Hm]. lia.
  - repeat split.
    + rewrite <- Nat.negb_odd, Hodd. reflexivity.
    + exact Hparse.
    + exact Hall.
    + intros Hk. rewrite Hpow. apply Hlen; lia.
    + intros Hk. rewrite Hpow in Hk. apply Hlen in Hk; lia.
Qed.

Lemma hex_pairs_spec (half : nat) (hex : string) (acc : Z) :
  String.length hex = (2 * half)%nat ->
  List.length (Ethers.hex_pairs hex) = half
  /\ bytes_ok (Ethers.hex_pairs hex)
  /\ value_be_from acc (Ethers.hex_pairs hex) = parse_from 16 acc hex.
Proof.
  revert hex acc. induction half as [|h IH]; intros hex acc Hlen.
  - destruct hex; [| discriminate]. repeat split. constructor.
  - destruct hex as [|c0 [|c1 r]]; cbn [String.length] in Hlen; try lia.
    destruct (IH r (acc * 256 + (16 * digit_value c0 + digit_value c1)))
      as (Hl & Hok & Hval); [lia |].
    cbn [Ethers.hex_pairs List.length value_be_from fold_left parse_from].
    pose proof (digit_value_range c0). pose proof (digit_value_range c1).
    repeat split.
    + now rewrite Hl.
    + constructor; [lia | assumption].
    + unfold value_be_from in Hval. rewrite Hval. f_equal. lia.
Qed.

Lemma value_be_zeros (k : nat) (bytes : list Z) :
  value_be_from 0 (List.repeat 0 k ++ bytes)%list = value_be_from 0 bytes.
Proof.
  induction k as [|k IH]; [reflexivity |]. exact IH.
Qed.

Lemma bytes_ok_zeros (k : nat) (bytes : list Z) :
  bytes_ok bytes -> bytes_ok (List.repeat 0 k ++ bytes)%list.
Proof.
  intros H. induction k as [|k IH]; [assumption |].
  constructor; [lia | assumption].
Qed.

Lemma hexlify_unfold (bytes : list Z) :
  Ethers.hexlify bytes = "0x" ++ hexlify_body bytes.
Proof. reflexivity. Qed.

Lemma nibbles (v : Z) :
  0 <= v < 256 ->
  Z.shiftr (Z.land v 0xf0) 4 = v / 16 /\ Z.land v 0x0f = v mod 16.
Proof.
  intros Hv. split.
  - rewrite Z.shiftr_land. change (Z.shiftr 0xf0 4) with (Z.ones 4).
    rewrite Z.land_ones, Z.shiftr_div_pow2 by lia.
    change (2 ^ 4) with 16. apply Z.mod_small.
    split; [apply Z.div_pos; lia | apply Z.div_lt_upper_bound; lia].
  - change 0x0f with (Z.ones 4). now rewrite Z.land_ones by lia.
Qed.

Lemma hexlify_body_spec (bytes : list Z) (acc : Z) :
  bytes_ok bytes ->
  String.length (hexlify_body bytes) = (2 * List.length bytes)%nat
  /\ all is_lower_hex (hexlify_body bytes) = true
  /\ parse_from 16 acc (hexlify_body bytes) = value_be_from acc bytes.
Proof.
  intros Hok. revert acc.
  induction Hok as [|v bytes Hv Hok IH]; intros acc.
  - repeat split.
  - destruct (IH (acc * 256 + v)) as (Hlen & Hall & Hval).
    destruct (nibbles v Hv) as [Hhi Hlo].
    assert (0 <= v / 16 < 16).
    { split; [apply Z.div_pos; lia | apply Z.div_lt_upper_bound; lia]. }
    pose proof (Z.mod_pos_bound v 16 ltac:(lia)).
    cbn [hexlify_body fold_right String.length all parse_from List.length
           value_be_from fold_left].
    fold (hexlify_body bytes). rewrite Hhi, Hlo.
    rewrite !digit_char_lower_hex, !digit_value_char by assumption.
    repeat split.
    + rewrite Hlen. lia.
    + exact Hall.
    + replace ((acc * 16 + v / 16) * 16 + v mod 16) with (acc * 256 + v).
      * exact Hval.
      * pose proof (Z.div_mod v 16 ltac:(lia)). lia.
Qed.

Lemma substring_prefix (p s : string) :
  String.substring 0 (String.length p) (p ++ s) = p.
Proof.
  induction p as [|c p IH]; [destruct s; reflexivity |].
  string_cons. cbn [String.length String.substring]. now rewrite IH.
Qed.

Lemma substring_0x (s : string) : substring ("0x" ++ s) 0 2 = "0x".
Proof. exact (substring_prefix "0x" s). Qed.

Lemma isHexString_0x (hex : string) :
  all is_hex hex = true -> Ethers.isHexString ("0x" ++ hex) = true.
Proof.
  intros H. unfold Ethers.isHexString. rewrite substring_0x.
  change (substring_from ("0x" ++ hex) 2) with hex. now rewrite H.
Qed.

Lemma even_length_half (s : string) :
  Nat.even (String.length s) = true ->
  Nat.odd (String.length s) = false
  /\ String.length s = (2 * (String.length s / 2))%nat.
Proof.
  intros Heven. split; [now rewrite <- Nat.negb_even, Heven |].
  apply Nat.even_spec in Heven as [m Hm].
  rewrite Hm at 2. rewrite (Nat.mul_comm 2 m), Nat.div_mul by lia. lia.
Qed.

(** [toBytes32] of a number below 2^256: "0x" and 64 lower-case hex digits
    that read back as the number. *)
Lemma toBytes32_spec (bn : Z) :
  0 <= bn < 2 ^ 256 ->
  exists body,
    toBytes32 bn = Ok ("0x" ++ body)
    /\ String.length body = 64%nat
    /\ all is_lower_hex body = true
    /\ parse 16 body = bn.
Proof.
  intros [Hlo Hhi].
  destruct (even_hex_spec bn Hlo) as (Heven & Hparse & Hall & Hlen).
  destruct (even_length_half _ Heven) as [Hodd Hhalf].
  destruct (hex_pairs_spec _ (even_hex bn) 0 Hhalf) as (Hcount & Hok & Hval).
  assert (Hfit : (String.length (even_hex bn) <= 2 * 32)%nat).
  { apply Hlen; [lia |]. exact Hhi. }
  unfold toBytes32, Ethers.zeroPad, Ethers.arrayify.
  rewrite toHexString_nonneg by assumption.
  rewrite isHexString_0x by now apply all_lower_hex_is_hex.
  change (substring_from ("0x" ++ even_hex bn) 2) with (even_hex bn).
  rewrite Hodd. cbn [bind]. rewrite Hcount.
  destruct (Nat.ltb_spec 32 (String.length (even_hex bn) / 2)); [lia |].
  cbn [bind]. rewrite hexlify_unfold.
  set (bytes := (List.repeat 0 _ ++ _)%list).
  assert (Hbytes : bytes_ok bytes) by now apply bytes_ok_zeros.
  destruct (hexlify_body_spec bytes 0 Hbytes) as (Hl & Ha & Hv).
  exists (hexlify_body bytes). repeat split.
  - rewrite Hl. subst bytes.
    rewrite length_app, repeat_length, Hcount. lia.
  - exact Ha.
  - unfold parse. rewrite Hv. subst bytes.
    rewrite value_be_zeros. rewrite Hval. exact Hparse.
Qed.

Lemma from_string_hex (body : string) :
  body <> "" -> all is_hex body = true ->
  Ethers.from_string ("0x" ++ body) = Ok (parse 16 body).
Proof.
  intros Hne Hall. destruct body as [|c r]; [contradiction |].
  string_cons.
  change (Ethers.from_string (String "0" (String "x" (String c r))))
    with (if all is_hex (String c r) then Ok (parse 16 (String c r))
          else if all is_digit (String "0" (String "x" (String c r)))
               then Ok (parse 10 (String "0" (String "x" (String c r))))
               else Throw (InvalidArgument "invalid BigNumber string")).
  now rewrite Hall.
Qed.

Lemma nonempty_of_length (s : string) (n : nat) :
  String.length s = S n -> s <> "".
Proof. intros H ->. discriminate. Qed.

(** C8. For unsigned x1 and x2 up to 2^128 - 1, encodeExchangeRate returns
    and decodeExchangeRate of what it returns is (x1, x2). *)
Theorem C8_decode_encode (x1 x2 : Z) :
  0 <= x1 <= 2 ^ 128 - 1 -> 0 <= x2 <= 2 ^ 128 - 1 ->
  exists rate,
    encodeExchangeRate x1 x2 = Ok rate
    /\ String.length rate = 66%nat
    /\ decodeExchangeRate rate = Ok (x1, x2).
Proof.
  intros Hx1 Hx2.
  assert (Hmax : MaxUint128 = 2 ^ 128 - 1) by reflexivity.
  assert (Hpos : 0 < 2 ^ 128) by (apply Z.pow_pos_nonneg; lia).
  set (er := Z.shiftl x1 128 + x2).
  assert (Hshift : Z.shiftl x1 128 = x1 * 2 ^ 128)
    by (rewrite Z.shiftl_mul_pow2; lia).
  assert (Her : 0 <= er < 2 ^ 256).
  { subst er. rewrite Hshift.
    change (2 ^ 256) with (2 ^ 128 * 2 ^ 128). nia. }
  destruct (toBytes32_spec er Her) as (body & Hbytes & Hlen & Hall & Hparse).
  exists ("0x" ++ body). split; [| split].
  - unfold encodeExchangeRate.
    destruct (Z.gtb_spec x1 MaxUint128); [lia |].
    destruct (Z.gtb_spec x2 MaxUint128); [lia |].
    rewrite shl_nonneg by lia. cbn [orb bind].
    exact Hbytes.
  - string_cons. cbn [String.length]. now rewrite Hlen.
  - unfold decodeExchangeRate.
    rewrite from_string_hex;
      [| now apply nonempty_of_length with (n := 63%nat)
       | now apply all_lower_hex_is_hex ].
    rewrite Hparse. cbn [bind].
    rewrite shr_nonneg, and_nonneg by lia. cbn [bind].
    f_equal. f_equal.
    + subst er. rewrite Z.shiftr_div_pow2, Hshift by lia.
      rewrite Z.div_add_l by lia. rewrite Z.div_small by lia. lia.
    + change MaxUint128 with (Z.ones 128).
      rewrite Z.land_ones by lia. subst er. rewrite Hshift.
      rewrite Z.add_comm, Z.mod_add by lia. apply Z.mod_small. lia.
Qed.

Lemma C8_witness :
  (0 <= 3 <= 2 ^ 128 - 1 /\ 0 <= 1 <= 2 ^ 128 - 1)
  /\ exists rate,
       encodeExchangeRate 3 1 = Ok rate
       /\ String.length rate = 66%nat
       /\ decodeExchangeRate rate = Ok (3, 1).
Proof.
  split; [lia |]. apply (C8_decode_encode 3 1); lia.
Defined.

(** ** Encoding a pool location, and the range errors *)

Lemma repeat_length_string (c : ascii) (n : nat) :
  String.length (repeat c n) = n.
Proof. induction n as [|n IH]; simpl; [reflexivity | now rewrite IH]. Qed.

Lemma repeat_snoc (c : ascii) (n : nat) (s : string) :
  repeat c n ++ String c s = String c (repeat c n ++ s).
Proof.
  induction n as [|n IH]; [reflexivity |].
  cbn [repeat]. string_cons. now rewrite IH.
Qed.

(** The loop puts zeros in front until the string has 62 characters. *)
Lemma pad_loop_spec (fuel : nat) (s : string) :
  pad_loop fuel s
  = repeat "0" (Nat.min fuel (62 - String.length s)) ++ s.
Proof.
  revert s. induction fuel as [|f IH]; intros s; [reflexivity |].
  cbn [pad_loop]. destruct (Nat.ltb_spec (String.length s) 62) as [Hlt | Hge].
  - rewrite IH. string_cons. cbn [String.length].
    replace (Nat.min (S f) (62 - String.length s))
      with (S (Nat.min f (62 - S (String.length s)))) by lia.
    cbn [repeat]. string_cons. apply repeat_snoc.
  - replace (62 - String.length s)%nat with 0%nat by lia.
    now rewrite Nat.min_0_r.
Qed.

Lemma poolIDtoLocation_nonneg (poolID : Z) :
  0 <= poolID ->
  poolIDtoLocation poolID
  = Ok ("0x03" ++ repeat "0" (62 - String.length (even_hex poolID))
               ++ even_hex poolID).
Proof.
  intros Hp. unfold poolIDtoLocation.
  rewrite toHexString_nonneg by assumption.
  change (substring_from ("0x" ++ even_hex poolID) 2) with (even_hex poolID).
  rewrite pad_loop_spec.
  replace (Nat.min 62 (62 - String.length (even_hex poolID)))
    with (62 - String.length (even_hex poolID))%nat by lia.
  reflexivity.
Qed.

(** C3 (amended). encodeExchangeRate throws its range error, and returns
    nothing, whenever x1 > 2^128 - 1 or x2 > 2^128 - 1. poolIDtoLocation
    checks no range and throws for no unsigned poolID: it returns "0x03"
    and the hex digits of poolID, with zeros in front up to 62 digits; the
    result has 66 characters exactly when poolID <= 2^248 - 1 and is
    longer for every larger poolID. *)
Theorem C3_range_errors :
  (forall x1 x2 : Z,
      2 ^ 128 - 1 < x1 \/ 2 ^ 128 - 1 < x2 ->
      encodeExchangeRate x1 x2 = Throw (ThrowString (range_message x1 x2)))
  /\ (forall poolID : Z,
         0 <= poolID ->
         exists loc,
           poolIDtoLocation poolID = Ok loc
           /\ loc = "0x03"
                    ++ repeat "0" (62 - String.length (even_hex poolID))
                    ++ even_hex poolID
           /\ (String.length loc = 66%nat <-> poolID <= 2 ^ 248 - 1)
           /\ (2 ^ 248 - 1 < poolID -> (66 < String.length loc)%nat)).
Proof.
  split.
  - intros x1 x2 H. unfold encodeExchangeRate.
    assert (Hmax : MaxUint128 = 2 ^ 128 - 1) by reflexivity.
    destruct (Z.gtb_spec x1 MaxUint128); [reflexivity |].
    destruct (Z.gtb_spec x2 MaxUint128); [reflexivity |]. lia.
  - intros poolID Hp. eexists. split; [now apply poolIDtoLocation_nonneg |].
    split; [reflexivity |].
    destruct (even_hex_spec poolID Hp) as (_ & _ & _ & Hlen).
    specialize (Hlen 31%nat ltac:(lia)).
    change (256 ^ Z.of_nat 31) with (2 ^ 248) in Hlen.
    string_cons. cbn [String.length].
    rewrite length_app_string, repeat_length_string.
    split; [split |]; intros H.
    + assert (poolID < 2 ^ 248) by (apply Hlen; lia). lia.
    + assert (String.length (even_hex poolID) <= 2 * 31)%nat
        by (apply Hlen; lia). lia.
    + assert (~ (String.length (even_hex poolID) <= 2 * 31)%nat)
        by (intros Hle; apply Hlen in Hle; lia). lia.
Qed.

Lemma C3_witness :
  (2 ^ 128 - 1 < 2 ^ 128 /\ 0 <= 2 ^ 248)
  /\ encodeExchangeRate (2 ^ 128) 0
  = Throw (ThrowString (range_message (2 ^ 128) 0))
  /\ (exists loc,
         poolIDtoLocation (2 ^ 248) = Ok loc
         /\ loc = "0x03"
                  ++ repeat "0" (62 - String.length (even_hex (2 ^ 248)))
                  ++ even_hex (2 ^ 248)
         /\ (String.length loc = 66%nat <-> 2 ^ 248 <= 2 ^ 248 - 1)
         /\ (2 ^ 248 - 1 < 2 ^ 248 -> (66 < String.length loc)%nat)).
Proof.
  split; [lia | split].
  - apply (proj1 C3_range_errors (2 ^ 128) 0). left. lia.
  - apply (proj2 C3_range_errors (2 ^ 248)). lia.
Defined.

(** C3, as stated, fails: for poolID = 2^248, which is above 2^248 - 1,
    poolIDtoLocation does not fail; it returns a string of 68
    characters. *)
Lemma C3_counterexample :
  2 ^ 248 - 1 < 2 ^ 248
  /\ poolIDtoLocation (2 ^ 248) = Ok location_2_248
  /\ String.length location_2_248 = 68%nat.
Proof.
  split; [lia |]. split; vm_compute; reflexivity.
Qed.

(** ** Describing a location *)

Lemma substring_length (s : string) (n m : nat) :
  (n + m <= String.length s)%nat ->
  String.length (String.substring n m s) = m.
Proof.
  revert n m. induction s as [|c s IH]; intros n m Hlen.
  - cbn [String.length] in Hlen.
    assert (n = 0%nat) as -> by lia. assert (m = 0%nat) as -> by lia.
    reflexivity.
  - cbn [String.length] in Hlen. destruct n as [|n].
    + destruct m as [|m]; [reflexivity |].
      cbn [String.substring String.length]. rewrite IH by lia. reflexivity.
    + cbn [String.substring]. apply IH. lia.
Qed.

Lemma all_substring_0 (p : ascii -> bool) (s : string) (m : nat) :
  all p s = true -> all p (String.substring 0 m s) = true.
Proof.
  revert m. induction s as [|c s IH]; intros m H.
  - destruct m; reflexivity.
  - destruct m as [|m]; [reflexivity |].
    cbn [String.substring all] in *.
    apply andb_true_iff in H as [Hc Hs]. now rewrite Hc, IH.
Qed.

Lemma all_substring_from (p : ascii -> bool) (s : string) (n : nat) :
  all p s = true -> all p (substring_from s n) = true.
Proof.
  revert s. induction n as [|n IH]; intros s H; [exact H |].
  destruct s as [|c s]; [reflexivity |].
  cbn [substring_from all] in *.
  apply andb_true_iff in H as [_ Hs]. now apply IH.
Qed.

Lemma substring_from_add (s : string) (n k : nat) :
  substring_from s (n + k) = substring_from (substring_from s n) k.
Proof.
  revert s. induction n as [|n IH]; intros s; [reflexivity |].
  destruct s as [|c s]; cbn [Nat.add substring_from]; [| apply IH].
  destruct k; reflexivity.
Qed.

Lemma substring_as_prefix (s : string) (n m : nat) :
  String.substring n m s = String.substring 0 m (substring_from s n).
Proof.
  revert s. induction n as [|n IH]; intros s; [reflexivity |].
  destruct s as [|c s]; cbn [String.substring substring_from];
    [destruct m; reflexivity | apply IH].
Qed.

(** A part of a string taken at or after [from] is made of characters of
    the string after [from]. *)
Lemma all_substring (p : ascii -> bool) (s : string) (from n m : nat) :
  (from <= n)%nat ->
  all p (substring_from s from) = true ->
  all p (String.substring n m s) = true.
Proof.
  intros Hle H. rewrite substring_as_prefix. apply all_substring_0.
  replace n with (from + (n - from))%nat by lia.
  rewrite substring_from_add. now apply all_substring_from.
Qed.

Lemma lower_hex_not_upper (c : ascii) :
  is_lower_hex c = true -> is_upper_AF c = false.
Proof.
  unfold is_lower_hex, is_digit, is_lower_af, is_upper_AF, between.
  change (code "0") with 48. change (code "9") with 57.
  change (code "a") with 97. change (code "f") with 102.
  change (code "A") with 65. change (code "F") with 70.
  repeat match goal with
         | |- context [?a <=? ?b] => destruct (Z.leb_spec a b)
         end; cbn [andb orb]; try reflexivity; try discriminate; lia.
Qed.

Lemma any_upper_lower_hex (s : string) :
  all is_lower_hex s = true -> any is_upper_AF s = false.
Proof.
  induction s as [|c s IH]; [reflexivity |]. cbn [all any].
  intros [Hc Hs]%andb_true_iff.
  now rewrite (lower_hex_not_upper c Hc), IH.
Qed.

(** What [getAddress] returns starts with "0x". *)
Lemma getAddress_Ok (address result : string) :
  Ethers.getAddress address = Ok result -> exists t, result = "0x" ++ t.
Proof.
  unfold Ethers.getAddress. intros H.
  destruct (_ && _) in H; [| discriminate]. cbv zeta in H.
  apply bind_inv_Ok in H as (r & Hr & H).
  destruct (_ && _) in H; [discriminate |]. injection H as <-.
  unfold Ethers.getChecksumAddress in Hr.
  destruct (_ && _) in Hr; [| discriminate]. injection Hr as <-. eauto.
Qed.

(** On "0x" and 40 hex digits in lower case [getAddress] returns. *)
Lemma getAddress_lower (body : string) :
  String.length body = 40%nat -> all is_lower_hex body = true ->
  exists t, Ethers.getAddress ("0x" ++ body) = Ok ("0x" ++ t).
Proof.
  intros Hlen Hall. pose proof (all_lower_hex_is_hex body Hall) as Hhex.
  unfold Ethers.getAddress. rewrite substring_0x.
  change (substring_from ("0x" ++ body) 2) with body.
  change (("0x" =? "0x")%string) with true. cbv iota.
  rewrite Hlen, Hhex. cbn [Nat.eqb andb].
  unfold Ethers.getChecksumAddress.
  rewrite isHexString_0x by assumption.
  rewrite length_app_string, Hlen. cbn [String.length Nat.add Nat.eqb andb bind].
  replace (any is_upper_AF ("0x" ++ body)) with false.
  - cbn [andb]. eauto.
  - string_cons. cbn [any]. rewrite any_upper_lower_hex by assumption.
    reflexivity.
Qed.

Lemma locationToString_path (loc : string) :
  location_path loc (locationToString loc).
Proof.
  unfold locationToString.
  fold (tag loc) (reserved loc) (address_part loc) (pool_part loc).
  destruct (Nat.eqb_spec (String.length loc) 66) as [Hlen | Hlen];
    cbn [negb]; [| now apply path_length].
  destruct (String.eqb_spec (tag loc) "0x01") as [H1 | H1].
  { destruct (String.eqb_spec (reserved loc) reserved_zeros) as [Hr | Hr];
      cbn [negb]; [now apply path_external | apply path_reserved; auto]. }
  destruct (String.eqb_spec (tag loc) "0x02") as [H2 | H2].
  { destruct (String.eqb_spec (reserved loc) reserved_zeros) as [Hr | Hr];
      cbn [negb]; [now apply path_internal | apply path_reserved; auto]. }
  destruct (String.eqb_spec (tag loc) "0x03") as [H3 | H3];
    [now apply path_pool | now apply path_tag].
Qed.

Lemma location_path_cases (loc : string) (r : result string) :
  location_path loc r ->
  (invalid_shape loc /\ r = Ok (invalid_location loc))
  \/ (~ invalid_shape loc /\ String.length loc = 66%nat
      /\ ((tag loc = "0x01"
           /\ r = (let! addr
                   := Ethers.getAddress ("0x" ++ address_part loc) in
                   Ok (addr ++ " external balance")))
          \/ (tag loc = "0x02"
              /\ r = (let! addr
                      := Ethers.getAddress ("0x" ++ address_part loc) in
                      Ok (addr ++ " internal balance")))
          \/ (tag loc = "0x03"
              /\ r = (let! poolID
                      := Ethers.from_string ("0x" ++ pool_part loc) in
                      Ok ("poolID " ++ Ethers.toString poolID))))).
Proof.
  unfold invalid_shape.
  intros [Hlen | Hlen Htag Hr | Hlen N1 N2 N3
          | Hlen Htag Hr | Hlen Htag Hr | Hlen Htag].
  - left. split; [tauto | reflexivity].
  - left. split; [tauto | reflexivity].
  - left. split; [tauto | reflexivity].
  - right. split; [| tauto].
    intros [H | [(N1 & _) | ([T | T] & H)]]; congruence.
  - right. split; [| tauto].
    intros [H | [(_ & N2 & _) | ([T | T] & H)]]; congruence.
  - right. split; [| tauto].
    intros [H | [(_ & _ & N3) | ([T | T] & H)]]; congruence.
Qed.

Lemma invalid_is_no_address (loc addr suffix : string) :
  Ethers.getAddress ("0x" ++ address_part loc) = Ok addr ->
  addr ++ suffix <> invalid_location loc.
Proof.
  intros H. apply getAddress_Ok in H as [t ->].
  unfold invalid_location. string_cons. congruence.
Qed.

Lemma invalid_is_no_pool (loc : string) (poolID : Z) :
  "poolID " ++ Ethers.toString poolID <> invalid_location loc.
Proof. unfold invalid_location. string_cons. congruence. Qed.

Lemma any_0x (p : ascii -> bool) (s : string) :
  p "0"%char = false -> p "x"%char = false -> any p ("0x" ++ s) = any p s.
Proof. intros H0 Hx. string_cons. cbn [any]. now rewrite H0, Hx. Qed.

(** [getAddress] on "0x" and 40 characters. *)
Lemma getAddress_cases (body : string) :
  String.length body = 40%nat ->
  Ethers.getAddress ("0x" ++ body)
  = if all is_hex body
    then if any is_upper_AF body && any is_lower_af body
            && negb (String.eqb (checksummed body) ("0x" ++ body))
         then Throw (InvalidArgument "bad address checksum")
         else Ok (checksummed body)
    else Throw (InvalidArgument "invalid address").
Proof.
  intros Hlen. unfold Ethers.getAddress. rewrite substring_0x.
  change (substring_from ("0x" ++ body) 2) with body.
  change (("0x" =? "0x")%string) with true. cbv iota.
  rewrite Hlen. cbn [Nat.eqb andb].
  destruct (all is_hex body) eqn:Hhex; [| reflexivity]. cbv zeta.
  unfold Ethers.getChecksumAddress.
  rewrite isHexString_0x by assumption.
  rewrite length_app_string, Hlen. cbn [String.length Nat.add Nat.eqb andb].
  fold (checksummed body). cbn [bind].
  rewrite !any_0x by reflexivity. reflexivity.
Qed.

Lemma getAddress_throws (body : string) :
  String.length body = 40%nat ->
  (exists e, Ethers.getAddress ("0x" ++ body) = Throw e)
  <-> bad_address body.
Proof.
  intros Hlen. rewrite getAddress_cases by assumption. unfold bad_address.
  destruct (all is_hex body); [| split; eauto].
  destruct (any is_upper_AF body), (any is_lower_af body);
    cbn [andb];
    try (split; [intros [e He]; discriminate
                | intros [H | (Hu & Hl & _)]; discriminate]).
  destruct (String.eqb_spec (checksummed body) ("0x" ++ body)) as [Heq | Hne];
    cbn [negb].
  - split; [intros [e He]; discriminate |].
    intros [H | (_ & _ & Hne)]; [discriminate | contradiction].
  - split; eauto.
Qed.

(** [BigNumber.from] on "0x" and digits. *)
Lemma from_string_0x_cases (digits : string) :
  digits <> "" ->
  Ethers.from_string ("0x" ++ digits)
  = if all is_hex digits then Ok (parse 16 digits)
    else Throw (InvalidArgument "invalid BigNumber string").
Proof.
  intros Hne. destruct digits as [|c r]; [contradiction |]. string_cons.
  change (Ethers.from_string (String "0" (String "x" (String c r))))
    with (if all is_hex (String c r) then Ok (parse 16 (String c r))
          else Throw (InvalidArgument "invalid BigNumber string")).
  reflexivity.
Qed.

Lemma from_string_0x_throws (digits : string) :
  digits <> "" ->
  (exists e, Ethers.from_string ("0x" ++ digits) = Throw e)
  <-> all is_hex digits = false.
Proof.
  intros Hne. rewrite from_string_0x_cases by assumption.
  destruct (all is_hex digits); split; eauto; try discriminate.
  intros [e He]. discriminate.
Qed.

Lemma bind_throws {A B} (r : result A) (k : A -> result B) :
  (forall a, exists b, k a = Ok b) ->
  (exists e, bind r k = Throw e) <-> (exists e, r = Throw e).
Proof.
  intros Hk. destruct r as [a|e]; cbn [bind].
  - destruct (Hk a) as [b ->]. split; intros [e He]; discriminate.
  - split; eauto.
Qed.

(** A payload of hex digits in lower case is in no raising shape. *)
Lemma lower_hex_not_raising (loc : string) :
  all is_lower_hex (substring_from loc 4) = true -> ~ raising_shape loc.
Proof.
  intros Hall (Hlen & [(_ & _ & Hbad) | (_ & Hpool)]).
  - assert (Ha : all is_lower_hex (address_part loc) = true)
      by (apply all_substring with (from := 4%nat); [lia | assumption]).
    destruct Hbad as [Hhex | (Hu & _)].
    + rewrite (all_lower_hex_is_hex _ Ha) in Hhex. discriminate.
    + rewrite (any_upper_lower_hex _ Ha) in Hu. discriminate.
  - assert (Hp : all is_lower_hex (pool_part loc) = true)
      by (apply all_substring with (from := 4%nat); [lia | assumption]).
    rewrite (all_lower_hex_is_hex _ Hp) in Hpool. discriminate.
Qed.

(** The branches of [locationToString] that read an address or a pool
    id: the result is what the reading gives. *)
Lemma location_read {A} (loc : string) (read : result A) (show : A -> string) :
  locationToString loc = (let! a := read in Ok (show a)) ->
  ~ invalid_shape loc -> String.length loc = 66%nat ->
  ((exists e, read = Throw e) <-> raising_shape loc) ->
  (forall a, read = Ok a ->
     description loc (show a) /\ show a <> invalid_location loc) ->
  (locationToString loc = Ok (invalid_location loc) <-> invalid_shape loc)
  /\ (forall s, locationToString loc = Ok s -> description loc s)
  /\ ((exists e, locationToString loc = Throw e) <-> raising_shape loc)
  /\ (~ raising_shape loc ->
      exists s, locationToString loc = Ok s /\ description loc s)
  /\ (String.length loc <> 66%nat
      \/ all is_lower_hex (substring_from loc 4) = true ->
      exists s, locationToString loc = Ok s /\ description loc s).
Proof.
  intros Hr Hshape Hlen Hraise Hshow. rewrite Hr.
  assert (Hthrows : (exists e, (let! a := read in Ok (show a)) = Throw e)
                    <-> raising_shape loc).
  { rewrite <- Hraise. apply bind_throws. eauto. }
  assert (Hret : ~ raising_shape loc ->
                 exists s, (let! a := read in Ok (show a)) = Ok s
                           /\ description loc s).
  { intros Hno. destruct read as [a|e] eqn:Hread; cbn [bind].
    - eexists. split; [reflexivity |]. now apply Hshow.
    - exfalso. apply Hno, Hraise. eauto. }
  split; [| split; [| split; [exact Hthrows | split; [exact Hret |]]]].
  - split; [| contradiction]. intros H.
    apply bind_inv_Ok in H as (a & Ha & H).
    destruct (Hshow a Ha) as [_ Hne]. congruence.
  - intros s H. apply bind_inv_Ok in H as (a & Ha & [= <-]).
    now apply Hshow.
  - intros [Hdom | Hdom]; [contradiction |].
    now apply Hret, lower_hex_not_raising.
Qed.

(** C7 (amended). On every input, locationToString returns the
    invalid-location string exactly when the input has not 66 characters
    (32 bytes), its tag is none of 0x01, 0x02, 0x03, or under the tags
    0x01 and 0x02 the 11 reserved bytes are not all zero, and whatever it
    returns is the invalid-location string or one of the three
    descriptions. It raises exactly when the input has 66 characters and
    either, under the tags 0x01 and 0x02 with the reserved bytes zero,
    the 40 address characters are not all hex digits or have letters in
    two cases without being the address with its checksum, or, under
    the tag 0x03, the 62 characters of the pool id are not all hex
    digits; on every other input it returns, so on every input whose
    payload is hex digits in lower case. *)
Theorem C7_locationToString_raise_set (loc : string) :
  (locationToString loc = Ok (invalid_location loc) <-> invalid_shape loc)
  /\ (forall s, locationToString loc = Ok s -> description loc s)
  /\ ((exists e, locationToString loc = Throw e) <-> raising_shape loc)
  /\ (~ raising_shape loc ->
      exists s, locationToString loc = Ok s /\ description loc s)
  /\ (String.length loc <> 66%nat
      \/ all is_lower_hex (substring_from loc 4) = true ->
      exists s, locationToString loc = Ok s /\ description loc s).
Proof.
  destruct (location_path_cases loc _ (locationToString_path loc))
    as [[Hshape Hr] | (Hshape & Hlen & Hr)].
  { assert (Hno : ~ raising_shape loc).
    { intros (Hlen & Hcases). unfold invalid_shape in Hshape.
      destruct Hshape as [H | [(N1 & N2 & N3) | (Htag & Hres)]];
        [contradiction | |].
      - destruct Hcases as [([T | T] & _) | (T & _)]; congruence.
      - destruct Hcases as [(_ & Hz & _) | (T & _)]; [congruence |].
        destruct Htag; congruence. }
    rewrite Hr. split; [tauto |]. split; [| split; [| split]].
    - intros s [= <-]. constructor.
    - split; [intros [e He]; discriminate | contradiction].
    - intros _. eexists. split; [reflexivity | constructor].
    - intros _. eexists. split; [reflexivity | constructor]. }
  assert (Haddr : String.length (address_part loc) = 40%nat)
    by (apply substring_length; lia).
  assert (Hpool : pool_part loc <> "").
  { apply nonempty_of_length with (n := 61%nat).
    apply substring_length. lia. }
  assert (Hres : tag loc = "0x01" \/ tag loc = "0x02" ->
                 reserved loc = reserved_zeros).
  { intros Htag.
    destruct (String.eqb_spec (reserved loc) reserved_zeros) as [H | H];
      [exact H |]. exfalso. apply Hshape. right. right. auto. }
  assert (Haddress : tag loc = "0x01" \/ tag loc = "0x02" ->
            ((exists e, Ethers.getAddress ("0x" ++ address_part loc)
                        = Throw e) <-> raising_shape loc)).
  { intros Htag. rewrite getAddress_throws by assumption.
    unfold raising_shape. split.
    - intros Hbad. split; [assumption |]. left. auto.
    - intros (_ & [(_ & _ & Hbad) | (T & _)]); [assumption |].
      destruct Htag; congruence. }
  destruct Hr as [[Htag Hr] | [[Htag Hr] | [Htag Hr]]].
  - apply (location_read loc _ _ Hr Hshape Hlen); [auto |].
    intros addr Ha. split; [now apply describes_external |].
    now apply invalid_is_no_address with (addr := addr).
  - apply (location_read loc _ _ Hr Hshape Hlen); [auto |].
    intros addr Ha. split; [now apply describes_internal |].
    now apply invalid_is_no_address with (addr := addr).
  - apply (location_read loc _ _ Hr Hshape Hlen).
    + rewrite from_string_0x_throws by assumption.
      unfold raising_shape. split.
      * intros Hbad. split; [assumption |]. right. auto.
      * intros (_ & [([T | T] & _) | (_ & Hbad)]);
          [congruence | congruence | assumption].
    + intros poolID Hp. split; [now apply describes_pool |].
      apply invalid_is_no_pool.
Qed.

Lemma C7_witness :
  (~ raising_shape location_checksummed
   /\ ~ raising_shape location_upper_case
   /\ ~ raising_shape location_pool_upper
   /\ raising_shape location_bad_checksum
   /\ all is_lower_hex (substring_from location_lower_case 4) = true)
  /\ locationToString location_checksummed
     = Ok "0x5aAeb6053F3E94C9b9A09f33669435E7Ef1BeAed external balance"
  /\ (exists s,
         locationToString location_upper_case = Ok s
         /\ description location_upper_case s)
  /\ (exists s,
         locationToString location_pool_upper = Ok s
         /\ description location_pool_upper s)
  /\ (exists e, locationToString location_bad_checksum = Throw e)
  /\ (exists s,
         locationToString location_lower_case = Ok s
         /\ description location_lower_case s).
Proof.
  assert (Hno : forall loc,
            String.length loc = 66%nat ->
            (tag loc = "0x03" -> all is_hex (pool_part loc) = true) ->
            (tag loc <> "0x03" ->
             all is_hex (address_part loc) = true
             /\ (any is_upper_AF (address_part loc)
                 && any is_lower_af (address_part loc) = false
                 \/ checksummed (address_part loc)
                    = "0x" ++ address_part loc)) ->
            ~ raising_shape loc).
  { intros loc _ Hp Ha (_ & [([T | T] & _ & Hbad) | (T & Hbad)]).
    - destruct Ha as [Hhex Hcase]; [rewrite T; discriminate |].
      destruct Hbad as [H | (Hu & Hl & Hne)]; [congruence |].
      rewrite Hu, Hl in Hcase. destruct Hcase; [discriminate | auto].
    - destruct Ha as [Hhex Hcase]; [rewrite T; discriminate |].
      destruct Hbad as [H | (Hu & Hl & Hne)]; [congruence |].
      rewrite Hu, Hl in Hcase. destruct Hcase; [discriminate | auto].
    - rewrite (Hp T) in Hbad. discriminate. }
  assert (H1 : ~ raising_shape location_checksummed).
  { apply Hno; [reflexivity | vm_compute; discriminate |].
    intros _. split; [| right]; vm_compute; reflexivity. }
  assert (H2 : ~ raising_shape location_upper_case).
  { apply Hno; [reflexivity | vm_compute; discriminate |].
    intros _. split; [| left]; vm_compute; reflexivity. }
  assert (H3 : ~ raising_shape location_pool_upper).
  { apply Hno; [reflexivity | intros _; vm_compute; reflexivity |].
    intros H. exfalso. apply H. vm_compute. reflexivity. }
  assert (H4 : raising_shape location_bad_checksum).
  { split; [reflexivity |]. left.
    split; [left; vm_compute; reflexivity |].
    split; [vm_compute; reflexivity |]. right.
    split; [vm_compute; reflexivity |].
    split; [vm_compute; reflexivity |].
    intros H. vm_compute in H. discriminate H. }
  assert (H5 : all is_lower_hex (substring_from location_lower_case 4)
               = true) by (vm_compute; reflexivity).
  split; [exact (conj H1 (conj H2 (conj H3 (conj H4 H5)))) |].
  split; [vm_compute; reflexivity |].
  split; [| split; [| split]].
  - apply (proj1 (proj2 (proj2 (proj2
             (C7_locationToString_raise_set location_upper_case)))) H2).
  - apply (proj1 (proj2 (proj2 (proj2
             (C7_locationToString_raise_set location_pool_upper)))) H3).
  - apply (proj2 (proj1 (proj2 (proj2
             (C7_locationToString_raise_set location_bad_checksum)))) H4).
  - apply (proj2 (proj2 (proj2 (proj2
             (C7_locationToString_raise_set location_lower_case))))).
    right. exact H5.
Defined.

(** C7, as stated, fails: locationToString raises on a location of 66
    characters, all hex digits after "0x", whose address part is written
    in two cases and is not its own checksum; and on a location whose pool
    id holds a character that is no hex digit. *)
Lemma C7_counterexample :
  String.length location_bad_checksum = 66%nat
  /\ all is_hex (substring_from location_bad_checksum 2) = true
  /\ locationToString location_bad_checksum
     = Throw (InvalidArgument "bad address checksum")
  /\ String.length location_no_hex = 66%nat
  /\ locationToString location_no_hex
     = Throw (InvalidArgument "invalid BigNumber string").
Proof. repeat split; vm_compute; reflexivity. Qed.

(** * Further properties of the helper *)

(** ** The two directions of the market maker *)

(** X1. On an active rate and unsigned amounts, the two calculators of
    the market maker round against the one who swaps: the amountB asked
    for an amountA buys back at least that amountA, and the amountA given
    for an amountB costs at most that amountB. *)
Theorem X1_maker_round_trips (rate : string) (x1 x2 : Z) :
  decodeExchangeRate rate = Ok (x1, x2) -> 0 < x1 -> 0 < x2 ->
  (forall amountA, 0 <= amountA ->
     exists amountB amountA',
       calculateAmountB amountA rate = Ok amountB
       /\ calculateAmountA amountB rate = Ok amountA'
       /\ amountA <= amountA')
  /\ (forall amountB, 0 <= amountB ->
        exists amountA amountB',
          calculateAmountA amountB rate = Ok amountA
          /\ calculateAmountB amountA rate = Ok amountB'
          /\ amountB' <= amountB).
Proof.
  intros Hrate Hx1 Hx2. split.
  - intros amountA Ha.
    pose proof (is_ceil_div (amountA * x2) x1 Hx1) as Hc.
    set (amountB := amountA * x2 / x1
                    + (if (amountA * x2) mod x1 =? 0 then 0 else 1)) in *.
    assert (Hb : 0 <= amountB) by (unfold is_ceil in Hc; nia).
    exists amountB, (amountB * x1 / x2). split; [| split].
    + exact (calculateAmountB_ceil rate x1 x2 Hrate Hx1 Hx2 amountA Ha).
    + exact (calculateAmountA_floor rate x1 x2 Hrate Hx1 Hx2 amountB Hb).
    + apply Z.div_le_lower_bound; [assumption |].
      unfold is_ceil in Hc. lia.
  - intros amountB Hb.
    pose proof (is_floor_div (amountB * x1) x2 Hx2) as Hf.
    set (amountA := amountB * x1 / x2) in *.
    assert (Ha : 0 <= amountA) by (apply Z.div_pos; nia).
    pose proof (is_ceil_div (amountA * x2) x1 Hx1) as Hc.
    eexists amountA, _. split; [| split].
    + exact (calculateAmountA_floor rate x1 x2 Hrate Hx1 Hx2 amountB Hb).
    + exact (calculateAmountB_ceil rate x1 x2 Hrate Hx1 Hx2 amountA Ha).
    + unfold is_floor, is_ceil in *. nia.
Qed.

Lemma X1_witness :
  (decodeExchangeRate rate_3_1 = Ok (3, 1) /\ 0 < 3 /\ 0 < 1)
  /\ (exists amountB amountA',
         calculateAmountB 10 rate_3_1 = Ok amountB
         /\ calculateAmountA amountB rate_3_1 = Ok amountA'
         /\ 10 <= amountA')
  /\ (exists amountA amountB',
         calculateAmountA 10 rate_3_1 = Ok amountA
         /\ calculateAmountB amountA rate_3_1 = Ok amountB'
         /\ amountB' <= 10).
Proof.
  assert (Hrate : decodeExchangeRate rate_3_1 = Ok (3, 1))
    by (vm_compute; reflexivity).
  split; [repeat split; first [lia | exact Hrate] | split].
  - apply (proj1 (X1_maker_round_trips rate_3_1 3 1 Hrate
                    ltac:(lia) ltac:(lia)) 10). lia.
  - apply (proj2 (X1_maker_round_trips rate_3_1 3 1 Hrate
                    ltac:(lia) ltac:(lia)) 10). lia.
Defined.

(** X2. On an active rate, both calculators of the market maker are
    monotone in the unsigned amount: a larger amount in never gives a
    smaller amount out. *)
Theorem X2_maker_monotone (rate : string) (x1 x2 small large : Z) :
  decodeExchangeRate rate = Ok (x1, x2) -> 0 < x1 -> 0 < x2 ->
  0 <= small <= large ->
  (exists a a',
      calculateAmountA small rate = Ok a
      /\ calculateAmountA large rate = Ok a' /\ 0 <= a <= a')
  /\ (exists b b',
         calculateAmountB small rate = Ok b
         /\ calculateAmountB large rate = Ok b' /\ 0 <= b <= b').
Proof.
  intros Hrate Hx1 Hx2 Hle. split.
  - eexists _, _. split; [| split].
    + apply (calculateAmountA_floor rate x1 x2 Hrate Hx1 Hx2). lia.
    + apply (calculateAmountA_floor rate x1 x2 Hrate Hx1 Hx2). lia.
    + split; [apply Z.div_pos; nia |].
      apply Z.div_le_mono; [assumption | nia].
  - eexists _, _. split; [| split].
    + apply (calculateAmountB_ceil rate x1 x2 Hrate Hx1 Hx2). lia.
    + apply (calculateAmountB_ceil rate x1 x2 Hrate Hx1 Hx2). lia.
    + pose proof (is_ceil_div (small * x2) x1 Hx1) as Hs.
      pose proof (is_ceil_div (large * x2) x1 Hx1) as Hl.
      unfold is_ceil in *. nia.
Qed.

Lemma X2_witness :
  (decodeExchangeRate rate_3_1 = Ok (3, 1) /\ 0 < 3 /\ 0 < 1
   /\ 0 <= 9 <= 10)
  /\ (exists a a',
         calculateAmountA 9 rate_3_1 = Ok a
         /\ calculateAmountA 10 rate_3_1 = Ok a' /\ 0 <= a <= a')
  /\ (exists b b',
         calculateAmountB 9 rate_3_1 = Ok b
         /\ calculateAmountB 10 rate_3_1 = Ok b' /\ 0 <= b <= b').
Proof.
  assert (Hrate : decodeExchangeRate rate_3_1 = Ok (3, 1))
    by (vm_compute; reflexivity).
  split; [repeat split; first [lia | exact Hrate] |].
  apply (X2_maker_monotone rate_3_1 3 1 9 10 Hrate); lia.
Defined.

(** ** The fee of the market taker *)

Lemma gross_up_splits (amountBMM feePPM : Z) :
  0 <= amountBMM -> 0 <= feePPM < 1000000 ->
  let amountBMT := amountBMM * 1000000 / (1000000 - feePPM) in
  let amountBFR := amountBMT * feePPM / 1000000 in
  0 <= amountBFR /\ amountBMT = amountBMM + amountBFR.
Proof.
  intros Hb Hfee amountBMT amountBFR.
  pose proof (is_floor_div (amountBMM * 1000000) (1000000 - feePPM)
                ltac:(lia)) as Ht.
  fold amountBMT in Ht.
  assert (H0 : 0 <= amountBMT) by (apply Z.div_pos; lia).
  pose proof (is_floor_div (amountBMT * feePPM) 1000000 ltac:(lia)) as Hf.
  fold amountBFR in Hf. unfold is_floor in *.
  split; [apply Z.div_pos; nia |]. nia.
Qed.

(** X3. For an unsigned amountAMT, an active rate and
    0 <= feePPM < 1_000_000, what calculateMarketOrderExactAMT makes the
    taker pay splits exactly into the maker's amount and the fee:
    amountBMT = amountBMM + amountBFR, with amountBFR >= 0. *)
Theorem X3_exactAMT_payment_splits
  (amountAMT : Z) (rate : string) (x1 x2 feePPM : Z) :
  0 <= amountAMT ->
  decodeExchangeRate rate = Ok (x1, x2) -> 0 < x1 -> 0 < x2 ->
  0 <= feePPM < 1000000 ->
  exists r,
    calculateMarketOrderExactAMT amountAMT rate feePPM = Ok r
    /\ 0 <= ExactAMT.amountBMM r
    /\ 0 <= ExactAMT.amountBFR r
    /\ ExactAMT.amountBMT r = ExactAMT.amountBMM r + ExactAMT.amountBFR r.
Proof.
  intros Ha Hrate Hx1 Hx2 Hfee. eexists. split.
  { apply (calculateMarketOrderExactAMT_active _ _ x1 x2);
      unfold MAX_PPM; auto. }
  cbn [ExactAMT.amountBMM ExactAMT.amountBMT ExactAMT.amountBFR].
  unfold MAX_PPM.
  pose proof (is_ceil_div (amountAMT * x2) x1 Hx1) as Hc.
  set (amountBMM := amountAMT * x2 / x1
                    + (if (amountAMT * x2) mod x1 =? 0 then 0 else 1)) in *.
  assert (Hb : 0 <= amountBMM) by (unfold is_ceil in Hc; nia).
  split; [exact Hb |]. exact (gross_up_splits amountBMM feePPM Hb Hfee).
Qed.

Lemma X3_witness :
  (0 <= 100 /\ decodeExchangeRate rate_1_1 = Ok (1, 1) /\ 0 < 1
   /\ 0 <= 10000 < 1000000)
  /\ exists r,
       calculateMarketOrderExactAMT 100 rate_1_1 10000 = Ok r
       /\ 0 <= ExactAMT.amountBMM r
       /\ 0 <= ExactAMT.amountBFR r
       /\ ExactAMT.amountBMT r
          = ExactAMT.amountBMM r + ExactAMT.amountBFR r.
Proof.
  assert (Hrate : decodeExchangeRate rate_1_1 = Ok (1, 1))
    by (vm_compute; reflexivity).
  split; [repeat split; first [lia | exact Hrate] |].
  apply (X3_exactAMT_payment_splits 100 rate_1_1 1 1 10000); auto; lia.
Defined.

(** X4. The two calculators of the market taker agree: for an unsigned
    amountAMT, an active rate and 0 <= feePPM < 1_000_000, paying the
    amountBMT that calculateMarketOrderExactAMT asks into
    calculateMarketOrderExactBMT charges the same fee, hands the maker
    the same amountBMM, and gives the taker at least amountAMT. *)
Theorem X4_exactAMT_then_exactBMT
  (amountAMT : Z) (rate : string) (x1 x2 feePPM : Z) :
  0 <= amountAMT ->
  decodeExchangeRate rate = Ok (x1, x2) -> 0 < x1 -> 0 < x2 ->
  0 <= feePPM < 1000000 ->
  exists r r',
    calculateMarketOrderExactAMT amountAMT rate feePPM = Ok r
    /\ calculateMarketOrderExactBMT (ExactAMT.amountBMT r) rate feePPM
       = Ok r'
    /\ ExactBMT.amountBFR r' = ExactAMT.amountBFR r
    /\ ExactBMT.amountBMM r' = ExactAMT.amountBMM r
    /\ amountAMT <= ExactBMT.amountAMT r'.
Proof.
  intros Ha Hrate Hx1 Hx2 Hfee.
  pose proof (is_ceil_div (amountAMT * x2) x1 Hx1) as Hc.
  set (amountBMM := amountAMT * x2 / x1
                    + (if (amountAMT * x2) mod x1 =? 0 then 0 else 1)) in *.
  assert (Hb : 0 <= amountBMM) by (unfold is_ceil in Hc; nia).
  destruct (gross_up_splits amountBMM feePPM Hb Hfee) as [Hfr Hsplit].
  set (amountBMT := amountBMM * 1000000 / (1000000 - feePPM)) in *.
  set (amountBFR := amountBMT * feePPM / 1000000) in *.
  eexists _, _. split; [| split].
  - apply (calculateMarketOrderExactAMT_active _ _ x1 x2);
      unfold MAX_PPM; auto.
  - cbn [ExactAMT.amountBMT]. unfold MAX_PPM. fold amountBMM amountBMT.
    unfold calculateMarketOrderExactBMT, MAX_PPM.
    rewrite div_floor by nia. cbn [bind]. fold amountBFR.
    rewrite (calculateAmountA_floor rate x1 x2 Hrate Hx1 Hx2) by lia.
    cbn [bind]. reflexivity.
  - cbn [ExactBMT.amountBFR ExactBMT.amountBMM ExactBMT.amountAMT
           ExactAMT.amountBFR ExactAMT.amountBMM].
    unfold MAX_PPM. fold amountBMM amountBMT amountBFR.
    split; [reflexivity |]. split; [lia |].
    replace (amountBMT - amountBFR) with amountBMM by lia.
    apply Z.div_le_lower_bound; [assumption |].
    unfold is_ceil in Hc. lia.
Qed.

Lemma X4_witness :
  (0 <= 10 /\ decodeExchangeRate rate_3_1 = Ok (3, 1) /\ 0 < 3 /\ 0 < 1
   /\ 0 <= 3000 < 1000000)
  /\ exists r r',
       calculateMarketOrderExactAMT 10 rate_3_1 3000 = Ok r
       /\ calculateMarketOrderExactBMT (ExactAMT.amountBMT r) rate_3_1 3000
          = Ok r'
       /\ ExactBMT.amountBFR r' = ExactAMT.amountBFR r
       /\ ExactBMT.amountBMM r' = ExactAMT.amountBMM r
       /\ 10 <= ExactBMT.amountAMT r'.
Proof.
  assert (Hrate : decodeExchangeRate rate_3_1 = Ok (3, 1))
    by (vm_compute; reflexivity).
  split; [repeat split; first [lia | exact Hrate] |].
  apply (X4_exactAMT_then_exactBMT 10 rate_3_1 3 1 3000); auto; lia.
Defined.



(** ** The rate test, the decimals and the relative amounts *)

(** X6. exchangeRateIsNonzero foretells the calculators of the market
    maker: it returns true exactly on the rates that decode to two
    positive numbers, on which both calculators return for every amount;
    where it returns false both throw the inactive-rate string; and where
    it throws, both throw the same. *)
Theorem X6_nonzero_rate_swaps (rate : string) :
  (exchangeRateIsNonzero rate = Ok true
   <-> exists x1 x2,
         decodeExchangeRate rate = Ok (x1, x2) /\ 0 < x1 /\ 0 < x2)
  /\ (exchangeRateIsNonzero rate = Ok true ->
      forall amount, exists a b,
        calculateAmountA amount rate = Ok a
        /\ calculateAmountB amount rate = Ok b)
  /\ (exchangeRateIsNonzero rate = Ok false ->
      forall amount,
        calculateAmountA amount rate = Throw (ThrowString inactive_message)
        /\ calculateAmountB amount rate
           = Throw (ThrowString inactive_message))
  /\ (forall e, exchangeRateIsNonzero rate = Throw e ->
      forall amount,
        calculateAmountA amount rate = Throw e
        /\ calculateAmountB amount rate = Throw e).
Proof.
  unfold exchangeRateIsNonzero.
  destruct (decodeExchangeRate rate) as [[x1 x2]|e0] eqn:Hrate; cbn [bind].
  - destruct (Z.leb_spec x1 0) as [H1 | H1];
      [| destruct (Z.leb_spec x2 0) as [H2 | H2]]; cbn [orb].
    + pose proof (decodeExchangeRate_nonneg rate x1 x2 Hrate) as [? ?].
      repeat split; try discriminate.
      * intros (y1 & y2 & [= <- <-] & ? & ?). lia.
      * apply (calculateAmountA_inactive rate x1 x2 Hrate). lia.
      * apply (calculateAmountB_inactive rate x1 x2 Hrate). lia.
    + pose proof (decodeExchangeRate_nonneg rate x1 x2 Hrate) as [? ?].
      repeat split; try discriminate.
      * intros (y1 & y2 & [= <- <-] & ? & ?). lia.
      * apply (calculateAmountA_inactive rate x1 x2 Hrate). lia.
      * apply (calculateAmountB_inactive rate x1 x2 Hrate). lia.
    + repeat split; try discriminate; eauto.
      intros _ amount. eexists _, _. split.
      * exact (calculateAmountA_active rate x1 x2 Hrate H1 H2 amount).
      * exact (calculateAmountB_active rate x1 x2 Hrate H1 H2 amount).
  - repeat split; try discriminate.
    + intros (y1 & y2 & [=] & _).
    + injection H as <-. unfold calculateAmountA. now rewrite Hrate.
    + injection H as <-. unfold calculateAmountB. now rewrite Hrate.
Qed.

Lemma X6_witness :
  exchangeRateIsNonzero rate_3_1 = Ok true
  /\ (exists a b,
         calculateAmountA 10 rate_3_1 = Ok a
         /\ calculateAmountB 10 rate_3_1 = Ok b)
  /\ exchangeRateIsNonzero rate_0_5 = Ok false
  /\ calculateAmountA 10 rate_0_5 = Throw (ThrowString inactive_message).
Proof.
  assert (H31 : exchangeRateIsNonzero rate_3_1 = Ok true)
    by (vm_compute; reflexivity).
  assert (H05 : exchangeRateIsNonzero rate_0_5 = Ok false)
    by (vm_compute; reflexivity).
  split; [exact H31 | split; [| split; [exact H05 |]]].
  - apply (proj1 (proj2 (X6_nonzero_rate_swaps rate_3_1)) H31 10).
  - apply (proj1 (proj2 (proj2 (X6_nonzero_rate_swaps rate_0_5))) H05 10).
Defined.

(** X7. decimalsToAmount of an integer number: 10^decimals for
    0 <= decimals < 2^53 - 1; 1 for a negative decimals above
    -(2^53 - 1), since the loop then makes no turn; and the overflow
    fault of BigNumber.from outside the safe integers. *)
Theorem X7_decimalsToAmount_cases (decimals : Z) :
  (0 <= decimals < Ethers.MAX_SAFE_INTEGER ->
   decimalsToAmount decimals = Ok (10 ^ decimals))
  /\ (- Ethers.MAX_SAFE_INTEGER < decimals < 0 ->
      decimalsToAmount decimals = Ok 1)
  /\ (Ethers.MAX_SAFE_INTEGER <= decimals
      \/ decimals <= - Ethers.MAX_SAFE_INTEGER ->
      decimalsToAmount decimals
      = Throw (NumericFault "overflow" "BigNumber.from")).
Proof.
  split; [apply decimalsToAmount_power | split].
  - intros Hd. unfold decimalsToAmount, Ethers.from_number, Ethers.toNumber.
    assert (Hmax : Ethers.MAX_SAFE_INTEGER = 9007199254740991)
      by reflexivity.
    destruct (Z.leb_spec Ethers.MAX_SAFE_INTEGER decimals); [lia |].
    destruct (Z.leb_spec decimals (- Ethers.MAX_SAFE_INTEGER)); [lia |].
    cbn [orb bind].
    destruct (Z.leb_spec (Z.abs decimals) Ethers.MAX_SAFE_INTEGER); [| lia].
    cbn [bind]. cbv zeta.
    replace (Z.to_nat decimals) with 0%nat by lia. reflexivity.
  - intros Hd. unfold decimalsToAmount, Ethers.from_number.
    destruct (Z.leb_spec Ethers.MAX_SAFE_INTEGER decimals);
      [reflexivity |].
    destruct (Z.leb_spec decimals (- Ethers.MAX_SAFE_INTEGER));
      [reflexivity | lia].
Qed.

Lemma X7_witness :
  (0 <= 18 < Ethers.MAX_SAFE_INTEGER
   /\ - Ethers.MAX_SAFE_INTEGER < -3 < 0
   /\ Ethers.MAX_SAFE_INTEGER <= 2 ^ 53)
  /\ decimalsToAmount 18 = Ok (10 ^ 18)
  /\ decimalsToAmount (-3) = Ok 1
  /\ decimalsToAmount (2 ^ 53)
     = Throw (NumericFault "overflow" "BigNumber.from").
Proof.
  split; [unfold Ethers.MAX_SAFE_INTEGER; lia |].
  split; [| split].
  - apply (proj1 (X7_decimalsToAmount_cases 18)).
    unfold Ethers.MAX_SAFE_INTEGER; lia.
  - apply (proj1 (proj2 (X7_decimalsToAmount_cases (-3)))).
    unfold Ethers.MAX_SAFE_INTEGER; lia.
  - apply (proj2 (proj2 (X7_decimalsToAmount_cases (2 ^ 53)))).
    left. unfold Ethers.MAX_SAFE_INTEGER; lia.
Defined.

(** X8. For amountA > 0, amountB > 0 and decimals that are unsigned safe
    integers, the two relative amounts are reciprocal up to rounding:
    their product is at most 10^decimalsA * 10^decimalsB; and the call
    with A and B exchanged returns the two amounts exchanged. *)
Theorem X8_relative_amounts_reciprocal
  (amountA decimalsA amountB decimalsB : Z) :
  0 < amountA -> 0 < amountB ->
  0 <= decimalsA < Ethers.MAX_SAFE_INTEGER ->
  0 <= decimalsB < Ethers.MAX_SAFE_INTEGER ->
  exists r r',
    calculateRelativeAmounts amountA decimalsA amountB decimalsB = Ok r
    /\ calculateRelativeAmounts amountB decimalsB amountA decimalsA = Ok r'
    /\ amountAperB r' = amountBperA r
    /\ amountBperA r' = amountAperB r
    /\ 0 <= amountAperB r /\ 0 <= amountBperA r
    /\ amountAperB r * amountBperA r <= 10 ^ decimalsA * 10 ^ decimalsB.
Proof.
  intros Ha Hb HdA HdB. unfold calculateRelativeAmounts.
  rewrite !decimalsToAmount_power by assumption. cbn [bind].
  assert (HuA : 0 < 10 ^ decimalsA) by (apply Z.pow_pos_nonneg; lia).
  assert (HuB : 0 < 10 ^ decimalsB) by (apply Z.pow_pos_nonneg; lia).
  set (uA := 10 ^ decimalsA) in *. set (uB := 10 ^ decimalsB) in *.
  rewrite !div_floor by nia. cbn [bind].
  eexists _, _. split; [reflexivity |]. split; [reflexivity |].
  cbn [amountAperB amountBperA].
  pose proof (is_floor_div (amountA * uB) amountB Hb) as Hp.
  pose proof (is_floor_div (amountB * uA) amountA Ha) as Hq.
  set (p := amountA * uB / amountB) in *.
  set (q := amountB * uA / amountA) in *.
  assert (0 <= p) by (apply Z.div_pos; nia).
  assert (0 <= q) by (apply Z.div_pos; nia).
  repeat split; try assumption.
  unfold is_floor in *.
  assert (H1 : (p * amountB) * (q * amountA)
               <= (amountA * uB) * (amountB * uA))
    by (apply Z.mul_le_mono_nonneg; nia).
  apply (Z.mul_le_mono_pos_r _ _ (amountA * amountB)); nia.
Qed.

Lemma X8_witness :
  (0 < 100 /\ 0 < 200 /\ 0 <= 18 < Ethers.MAX_SAFE_INTEGER
   /\ 0 <= 6 < Ethers.MAX_SAFE_INTEGER)
  /\ exists r r',
       calculateRelativeAmounts 100 18 200 6 = Ok r
       /\ calculateRelativeAmounts 200 6 100 18 = Ok r'
       /\ amountAperB r' = amountBperA r
       /\ amountBperA r' = amountAperB r
       /\ 0 <= amountAperB r /\ 0 <= amountBperA r
       /\ amountAperB r * amountBperA r <= 10 ^ 18 * 10 ^ 6.
Proof.
  split; [unfold Ethers.MAX_SAFE_INTEGER; lia |].
  apply (X8_relative_amounts_reciprocal 100 18 200 6);
    unfold Ethers.MAX_SAFE_INTEGER; lia.
Defined.

(** ** Thirty-two bytes and the exchange rate *)

Lemma toBytes32_negative (bn : Z) :
  bn < 0 ->
  toBytes32 bn = Throw (InvalidArgument "invalid arrayify value").
Proof.
  intros Hn. unfold toBytes32, Ethers.zeroPad, Ethers.arrayify.
  unfold Ethers.toHexString, Ethers.toHex.
  destruct (Z.ltb_spec bn 0); [| lia].
  destruct (Nat.odd _); reflexivity.
Qed.

Lemma toBytes32_overflow (bn : Z) :
  2 ^ 256 <= bn ->
  toBytes32 bn = Throw (InvalidArgument "value out of range").
Proof.
  intros Hn. assert (Hlo : 0 <= bn) by lia.
  destruct (even_hex_spec bn Hlo) as (Heven & Hparse & Hall & Hlen).
  destruct (even_length_half _ Heven) as [Hodd Hhalf].
  destruct (hex_pairs_spec _ (even_hex bn) 0 Hhalf) as (Hcount & _ & _).
  assert (Hbig : ~ (String.length (even_hex bn) <= 2 * 32)%nat).
  { intros Hle. apply Hlen in Hle; [| lia].
    change (256 ^ Z.of_nat 32) with (2 ^ 256) in Hle. lia. }
  unfold toBytes32, Ethers.zeroPad, Ethers.arrayify.
  rewrite toHexString_nonneg by assumption.
  rewrite isHexString_0x by now apply all_lower_hex_is_hex.
  change (substring_from ("0x" ++ even_hex bn) 2) with (even_hex bn).
  rewrite Hodd. cbn [bind]. rewrite Hcount.
  destruct (Nat.ltb_spec 32 (String.length (even_hex bn) / 2));
    [reflexivity | lia].
Qed.

(** X9. toBytes32 returns exactly on the numbers from 0 to 2^256 - 1, and
    then "0x" and 64 hex digits in lower case that read back as the
    number; a larger number is out of range for zeroPad and a negative
    one is no hex string for arrayify, and both throw. *)
Theorem X9_toBytes32_cases (bn : Z) :
  (0 <= bn < 2 ^ 256 ->
   exists body,
     toBytes32 bn = Ok ("0x" ++ body)
     /\ String.length body = 64%nat
     /\ all is_lower_hex body = true
     /\ Ethers.from_string ("0x" ++ body) = Ok bn)
  /\ (2 ^ 256 <= bn ->
      toBytes32 bn = Throw (InvalidArgument "value out of range"))
  /\ (bn < 0 ->
      toBytes32 bn = Throw (InvalidArgument "invalid arrayify value")).
Proof.
  split; [| split; [apply toBytes32_overflow | apply toBytes32_negative]].
  intros Hbn.
  destruct (toBytes32_spec bn Hbn) as (body & Hb & Hlen & Hall & Hparse).
  exists body. repeat split; try assumption.
  rewrite from_string_hex;
    [now rewrite Hparse
    | now apply nonempty_of_length with (n := 63%nat)
    | now apply all_lower_hex_is_hex].
Qed.

Lemma X9_witness :
  (0 <= 255 < 2 ^ 256 /\ 2 ^ 256 <= 2 ^ 256 /\ -1 < 0)
  /\ (exists body,
         toBytes32 255 = Ok ("0x" ++ body)
         /\ String.length body = 64%nat
         /\ all is_lower_hex body = true
         /\ Ethers.from_string ("0x" ++ body) = Ok 255)
  /\ toBytes32 (2 ^ 256) = Throw (InvalidArgument "value out of range")
  /\ toBytes32 (-1) = Throw (InvalidArgument "invalid arrayify value").
Proof.
  split; [lia | split; [| split]].
  - apply (proj1 (X9_toBytes32_cases 255)). lia.
  - apply (proj1 (proj2 (X9_toBytes32_cases (2 ^ 256)))). lia.
  - apply (proj2 (proj2 (X9_toBytes32_cases (-1)))). lia.
Defined.

Lemma split_128 (v : Z) :
  0 <= v ->
  0 <= Z.shiftr v 128 /\ 0 <= Z.land v MaxUint128 <= 2 ^ 128 - 1
  /\ Z.shiftr v 128 * 2 ^ 128 + Z.land v MaxUint128 = v.
Proof.
  intros Hv. assert (Hpos : 0 < 2 ^ 128) by (apply Z.pow_pos_nonneg; lia).
  change MaxUint128 with (Z.ones 128).
  rewrite Z.land_ones, Z.shiftr_div_pow2 by lia.
  pose proof (Z.div_mod v (2 ^ 128) ltac:(lia)).
  pose proof (Z.mod_pos_bound v (2 ^ 128) Hpos).
  assert (0 <= v / 2 ^ 128) by (apply Z.div_pos; lia).
  lia.
Qed.

(** X10. decodeExchangeRate splits the number the string holds: whenever
    it returns (x1, x2), the string is a number x1 * 2^128 + x2 with
    x1 >= 0 and 0 <= x2 <= 2^128 - 1; it returns on every string that
    holds a number that is not negative, and throws the negative-width
    fault of shr on a negative one. *)
Theorem X10_decodeExchangeRate_splits (rate : string) :
  (forall x1 x2,
      decodeExchangeRate rate = Ok (x1, x2) ->
      0 <= x1 /\ 0 <= x2 <= 2 ^ 128 - 1
      /\ Ethers.from_string rate = Ok (x1 * 2 ^ 128 + x2))
  /\ (forall er,
         Ethers.from_string rate = Ok er -> 0 <= er ->
         decodeExchangeRate rate
         = Ok (er / 2 ^ 128, er mod 2 ^ 128))
  /\ (forall er,
         Ethers.from_string rate = Ok er -> er < 0 ->
         decodeExchangeRate rate
         = Throw (NumericFault "negative-width" "shr")).
Proof.
  split; [| split].
  - intros x1 x2 H.
    apply decodeExchangeRate_Ok in H as (er & Her & Hpos & -> & ->).
    destruct (split_128 er Hpos) as (H1 & H2 & H3).
    rewrite H3. auto.
  - intros er Her Hpos. unfold decodeExchangeRate. rewrite Her. cbn [bind].
    assert (0 <= MaxUint128) by (unfold MaxUint128; lia).
    rewrite shr_nonneg, and_nonneg by lia. cbn [bind].
    change MaxUint128 with (Z.ones 128).
    now rewrite Z.land_ones, Z.shiftr_div_pow2 by lia.
  - intros er Her Hneg. unfold decodeExchangeRate. rewrite Her. cbn [bind].
    unfold Ethers.shr. destruct (Z.ltb_spec er 0); [reflexivity | lia].
Qed.

Lemma X10_witness :
  (decodeExchangeRate rate_3_1 = Ok (3, 1)
   /\ Ethers.from_string "5" = Ok 5 /\ 0 <= 5
   /\ Ethers.from_string "-1" = Ok (-1) /\ -1 < 0)
  /\ (0 <= 3 /\ 0 <= 1 <= 2 ^ 128 - 1
      /\ Ethers.from_string rate_3_1 = Ok (3 * 2 ^ 128 + 1))
  /\ decodeExchangeRate "5" = Ok (5 / 2 ^ 128, 5 mod 2 ^ 128)
  /\ decodeExchangeRate "-1" = Throw (NumericFault "negative-width" "shr").
Proof.
  assert (H31 : decodeExchangeRate rate_3_1 = Ok (3, 1))
    by (vm_compute; reflexivity).
  assert (H5 : Ethers.from_string "5" = Ok 5) by (vm_compute; reflexivity).
  assert (Hm : Ethers.from_string "-1" = Ok (-1))
    by (vm_compute; reflexivity).
  split; [repeat split; first [lia | assumption] | split; [| split]].
  - apply (proj1 (X10_decodeExchangeRate_splits rate_3_1) 3 1 H31).
  - apply (proj1 (proj2 (X10_decodeExchangeRate_splits "5")) 5 H5). lia.
  - apply (proj2 (proj2 (X10_decodeExchangeRate_splits "-1")) (-1) Hm). lia.
Defined.

(** X11. Whatever encodeExchangeRate returns is a string of 66
    characters that decodes to two numbers of at most 128 bits with the
    packed value x1 * 2^128 + x2, and to (x1, x2) itself when x2 is not
    negative; it returns only for 0 <= x1 <= 2^128 - 1 and
    x2 <= 2^128 - 1, and a negative x1 within the range of x2 throws the
    negative-width fault of shl. It does return whenever x1 and x2 are
    in these ranges and the packed value is not negative, so a negative
    x2 is not rejected: for 0 < x1 and -2^128 <= x2 < 0 the rate it
    returns decodes to (x1 - 1, x2 + 2^128). Only a negative packed
    value throws, as no hex string for arrayify. *)
Theorem X11_encodeExchangeRate_returns (x1 x2 : Z) :
  (forall rate,
      encodeExchangeRate x1 x2 = Ok rate ->
      0 <= x1 <= 2 ^ 128 - 1 /\ x2 <= 2 ^ 128 - 1
      /\ String.length rate = 66%nat
      /\ exists y1 y2,
           decodeExchangeRate rate = Ok (y1, y2)
           /\ 0 <= y1 <= 2 ^ 128 - 1 /\ 0 <= y2 <= 2 ^ 128 - 1
           /\ y1 * 2 ^ 128 + y2 = x1 * 2 ^ 128 + x2
           /\ (0 <= x2 -> y1 = x1 /\ y2 = x2))
  /\ (x1 < 0 -> x2 <= 2 ^ 128 - 1 ->
      encodeExchangeRate x1 x2
      = Throw (NumericFault "negative-width" "shl"))
  /\ (0 <= x1 <= 2 ^ 128 - 1 -> x2 <= 2 ^ 128 - 1 ->
      0 <= x1 * 2 ^ 128 + x2 ->
      exists rate, encodeExchangeRate x1 x2 = Ok rate)
  /\ (0 < x1 <= 2 ^ 128 - 1 -> - 2 ^ 128 <= x2 < 0 ->
      exists rate,
        encodeExchangeRate x1 x2 = Ok rate
        /\ decodeExchangeRate rate = Ok (x1 - 1, x2 + 2 ^ 128))
  /\ (0 <= x1 <= 2 ^ 128 - 1 -> x1 * 2 ^ 128 + x2 < 0 ->
      encodeExchangeRate x1 x2
      = Throw (InvalidArgument "invalid arrayify value")).
Proof.
  assert (Hmax : MaxUint128 = 2 ^ 128 - 1) by reflexivity.
  assert (Hpos : 0 < 2 ^ 128) by (apply Z.pow_pos_nonneg; lia).
  assert (Hpack : 0 <= x1 <= 2 ^ 128 - 1 -> x2 <= 2 ^ 128 - 1 ->
                  encodeExchangeRate x1 x2 = toBytes32 (x1 * 2 ^ 128 + x2)).
  { intros Hx1 Hx2. unfold encodeExchangeRate.
    destruct (Z.gtb_spec x1 MaxUint128); [lia |].
    destruct (Z.gtb_spec x2 MaxUint128); [lia |].
    rewrite shl_nonneg by lia. cbn [orb bind].
    now rewrite Z.shiftl_mul_pow2 by lia. }
  assert (Hfirst : forall rate,
      encodeExchangeRate x1 x2 = Ok rate ->
      0 <= x1 <= 2 ^ 128 - 1 /\ x2 <= 2 ^ 128 - 1
      /\ String.length rate = 66%nat
      /\ exists y1 y2,
           decodeExchangeRate rate = Ok (y1, y2)
           /\ 0 <= y1 <= 2 ^ 128 - 1 /\ 0 <= y2 <= 2 ^ 128 - 1
           /\ y1 * 2 ^ 128 + y2 = x1 * 2 ^ 128 + x2
           /\ (0 <= x2 -> y1 = x1 /\ y2 = x2)).
  { intros rate H. unfold encodeExchangeRate in H.
      destruct (Z.gtb_spec x1 MaxUint128); [discriminate |].
      destruct (Z.gtb_spec x2 MaxUint128); [discriminate |].
      cbn [orb] in H.
      destruct (Z.lt_ge_cases x1 0) as [Hneg1 | Hx1].
      { unfold Ethers.shl in H.
        destruct (Z.ltb_spec x1 0); [discriminate | lia]. }
      rewrite shl_nonneg in H by lia. cbn [bind] in H.
      rewrite Z.shiftl_mul_pow2 in H by lia.
      set (v := x1 * 2 ^ 128 + x2) in *.
      destruct (Z.lt_ge_cases v 0) as [Hneg | Hv].
      { rewrite toBytes32_negative in H by assumption. discriminate. }
      assert (Hlt : v < 2 ^ 256).
      { subst v. change (2 ^ 256) with (2 ^ 128 * 2 ^ 128). nia. }
      destruct (toBytes32_spec v (conj Hv Hlt))
        as (body & Hb & Hlen & Hall & Hparse).
      rewrite Hb in H. injection H as <-.
      split; [lia |]. split; [lia |]. split.
      { string_cons. cbn [String.length]. now rewrite Hlen. }
      destruct (split_128 v Hv) as (Hs1 & Hs2 & Hs3).
      exists (Z.shiftr v 128), (Z.land v MaxUint128).
      assert (Hy1 : Z.shiftr v 128 <= 2 ^ 128 - 1).
      { rewrite Z.shiftr_div_pow2 by lia.
        apply Z.lt_le_pred, Z.div_lt_upper_bound; [lia |].
        change (2 ^ 128 * 2 ^ 128) with (2 ^ 256). lia. }
      split; [| split; [lia | split; [lia | split; [exact Hs3 |]]]].
      + unfold decodeExchangeRate.
        rewrite from_string_hex;
          [| now apply nonempty_of_length with (n := 63%nat)
           | now apply all_lower_hex_is_hex ].
        rewrite Hparse. cbn [bind].
        rewrite shr_nonneg, and_nonneg by lia. reflexivity.
      + intros Hx2. subst v. nia. }
  assert (Hret : 0 <= x1 <= 2 ^ 128 - 1 -> x2 <= 2 ^ 128 - 1 ->
                 0 <= x1 * 2 ^ 128 + x2 ->
                 exists rate, encodeExchangeRate x1 x2 = Ok rate).
  { intros Hx1 Hx2 Hv. rewrite Hpack by assumption.
    assert (Hlt : x1 * 2 ^ 128 + x2 < 2 ^ 256).
    { change (2 ^ 256) with (2 ^ 128 * 2 ^ 128). nia. }
    destruct (toBytes32_spec _ (conj Hv Hlt)) as (body & Hb & _). eauto. }
  split; [exact Hfirst |]. split; [| split; [exact Hret | split]].
  - intros Hneg Hx2. unfold encodeExchangeRate.
    destruct (Z.gtb_spec x1 MaxUint128); [lia |].
    destruct (Z.gtb_spec x2 MaxUint128); [lia |].
    cbn [orb]. unfold Ethers.shl.
    destruct (Z.ltb_spec x1 0); [reflexivity | lia].
  - intros Hx1 Hx2.
    destruct Hret as [rate Hrate]; [lia | lia | nia |].
    destruct (Hfirst rate Hrate)
      as (_ & _ & _ & y1 & y2 & Hd & Hy1 & Hy2 & Hsum & _).
    exists rate. split; [exact Hrate |]. rewrite Hd.
    assert (y1 = x1 - 1) by nia. assert (y2 = x2 + 2 ^ 128) by nia.
    now subst.
  - intros Hx1 Hv. rewrite Hpack by nia.
    now apply toBytes32_negative.
Qed.

Lemma X11_witness :
  (encodeExchangeRate 3 1 = Ok rate_3_1 /\ -1 < 0 /\ 0 <= 2 ^ 128 - 1
   /\ 0 < 1 <= 2 ^ 128 - 1 /\ - 2 ^ 128 <= -1 < 0
   /\ 0 * 2 ^ 128 + -1 < 0)
  /\ (0 <= 3 <= 2 ^ 128 - 1 /\ 1 <= 2 ^ 128 - 1
      /\ String.length rate_3_1 = 66%nat
      /\ exists y1 y2,
           decodeExchangeRate rate_3_1 = Ok (y1, y2)
           /\ 0 <= y1 <= 2 ^ 128 - 1 /\ 0 <= y2 <= 2 ^ 128 - 1
           /\ y1 * 2 ^ 128 + y2 = 3 * 2 ^ 128 + 1
           /\ (0 <= 1 -> y1 = 3 /\ y2 = 1))
  /\ encodeExchangeRate (-1) 0
     = Throw (NumericFault "negative-width" "shl")
  /\ (exists rate,
         encodeExchangeRate 1 (-1) = Ok rate
         /\ decodeExchangeRate rate = Ok (1 - 1, -1 + 2 ^ 128))
  /\ encodeExchangeRate 0 (-1)
     = Throw (InvalidArgument "invalid arrayify value").
Proof.
  assert (H31 : encodeExchangeRate 3 1 = Ok rate_3_1)
    by (vm_compute; reflexivity).
  split; [repeat split; first [lia | exact H31] |].
  split; [| split; [| split]].
  - apply (proj1 (X11_encodeExchangeRate_returns 3 1) rate_3_1 H31).
  - apply (proj1 (proj2 (X11_encodeExchangeRate_returns (-1) 0))); lia.
  - apply (proj1 (proj2 (proj2 (proj2
             (X11_encodeExchangeRate_returns 1 (-1)))))); lia.
  - apply (proj2 (proj2 (proj2 (proj2
             (X11_encodeExchangeRate_returns 0 (-1)))))); lia.
Defined.

(** Reading hex digits in lower case is one to one on strings of one
    length. *)
Lemma parse_from_shift (s : string) (acc : Z) :
  parse_from 16 acc s
  = acc * 16 ^ Z.of_nat (String.length s) + parse 16 s
  /\ 0 <= parse 16 s < 16 ^ Z.of_nat (String.length s).
Proof.
  unfold parse. revert acc. induction s as [|c s IH]; intros acc.
  - cbn. lia.
  - cbn [parse_from String.length].
    rewrite Nat2Z.inj_succ, Z.pow_succ_r by lia.
    pose proof (digit_value_range c).
    destruct (IH (acc * 16 + digit_value c)) as [-> Hr].
    destruct (IH (0 * 16 + digit_value c)) as [-> _].
    split; nia.
Qed.

Lemma digit_char_value (c : ascii) :
  is_lower_hex c = true -> digit_char (digit_value c) = c.
Proof.
  destruct c as [[] [] [] [] [] [] [] []]; intros H;
    vm_compute in H; try discriminate H; reflexivity.
Qed.

Lemma parse_lower_hex_inj (s t : string) :
  String.length s = String.length t ->
  all is_lower_hex s = true -> all is_lower_hex t = true ->
  parse 16 s = parse 16 t -> s = t.
Proof.
  revert t. induction s as [|c s IH]; intros [|d t] Hlen Hs Ht Hp;
    try discriminate; [reflexivity |].
  cbn [String.length all] in *. injection Hlen as Hlen.
  apply andb_true_iff in Hs as [Hc Hs]. apply andb_true_iff in Ht as [Hd Ht].
  unfold parse in Hp. cbn [parse_from] in Hp.
  destruct (parse_from_shift s (0 * 16 + digit_value c)) as [Hs1 Hs2].
  destruct (parse_from_shift t (0 * 16 + digit_value d)) as [Ht1 Ht2].
  rewrite Hs1, Ht1 in Hp. rewrite <- Hlen in *.
  pose proof (digit_value_range c). pose proof (digit_value_range d).
  assert (Hcd : digit_value c = digit_value d) by nia.
  assert (Hst : parse 16 s = parse 16 t) by nia.
  f_equal; [| now apply IH].
  rewrite <- (digit_char_value c Hc), <- (digit_char_value d Hd).
  now rewrite Hcd.
Qed.

(** X12. Encoding undoes decoding on a rate in the form of 32 bytes: for
    "0x" and 64 hex digits in lower case, decodeExchangeRate returns two
    numbers of at most 128 bits, and encodeExchangeRate of the two
    returns the same string. *)
Theorem X12_encode_decode (body : string) :
  String.length body = 64%nat -> all is_lower_hex body = true ->
  exists x1 x2,
    decodeExchangeRate ("0x" ++ body) = Ok (x1, x2)
    /\ 0 <= x1 <= 2 ^ 128 - 1 /\ 0 <= x2 <= 2 ^ 128 - 1
    /\ encodeExchangeRate x1 x2 = Ok ("0x" ++ body).
Proof.
  intros Hlen Hall.
  assert (Hmax : MaxUint128 = 2 ^ 128 - 1) by reflexivity.
  assert (Hpos : 0 < 2 ^ 128) by (apply Z.pow_pos_nonneg; lia).
  destruct (parse_from_shift body 0) as [_ Hrange].
  rewrite Hlen in Hrange. change (16 ^ Z.of_nat 64) with (2 ^ 256) in Hrange.
  set (v := parse 16 body) in *.
  destruct (split_128 v ltac:(lia)) as (H1 & H2 & H3).
  assert (Hy1 : Z.shiftr v 128 <= 2 ^ 128 - 1).
  { rewrite Z.shiftr_div_pow2 by lia.
    apply Z.lt_le_pred, Z.div_lt_upper_bound; [lia |].
    change (2 ^ 128 * 2 ^ 128) with (2 ^ 256). lia. }
  exists (Z.shiftr v 128), (Z.land v MaxUint128).
  split; [| split; [lia | split; [lia |]]].
  - unfold decodeExchangeRate.
    rewrite from_string_hex;
      [| now apply nonempty_of_length with (n := 63%nat)
       | now apply all_lower_hex_is_hex ].
    fold v. cbn [bind]. rewrite shr_nonneg, and_nonneg by lia. reflexivity.
  - unfold encodeExchangeRate.
    destruct (Z.gtb_spec (Z.shiftr v 128) MaxUint128); [lia |].
    destruct (Z.gtb_spec (Z.land v MaxUint128) MaxUint128); [lia |].
    rewrite shl_nonneg by lia. cbn [orb bind].
    rewrite Z.shiftl_mul_pow2, H3 by lia.
    destruct (toBytes32_spec v Hrange) as (body' & Hb & Hlen' & Hall' & Hp).
    rewrite Hb. do 2 f_equal.
    apply parse_lower_hex_inj; [congruence | assumption | assumption |].
    exact Hp.
Qed.

Lemma X12_witness :
  (String.length (substring_from rate_3_1 2) = 64%nat
   /\ all is_lower_hex (substring_from rate_3_1 2) = true)
  /\ exists x1 x2,
       decodeExchangeRate ("0x" ++ substring_from rate_3_1 2) = Ok (x1, x2)
       /\ 0 <= x1 <= 2 ^ 128 - 1 /\ 0 <= x2 <= 2 ^ 128 - 1
       /\ encodeExchangeRate x1 x2 = Ok ("0x" ++ substring_from rate_3_1 2).
Proof.
  split; [split; vm_compute; reflexivity |].
  apply (X12_encode_decode (substring_from rate_3_1 2));
    vm_compute; reflexivity.
Defined.

(** ** Locations made by the encoders *)

Lemma substring_0_0 (s : string) : String.substring 0 0 s = "".
Proof. destruct s; reflexivity. Qed.

Lemma substring_whole (s : string) :
  String.substring 0 (String.length s) s = s.
Proof.
  induction s as [|c s IH]; [reflexivity |].
  cbn [String.length String.substring]. now rewrite IH.
Qed.

Lemma substring_all (s : string) (n : nat) :
  String.length s = n -> String.substring 0 n s = s.
Proof. intros <-. apply substring_whole. Qed.

Lemma map_length_string (f : ascii -> ascii) (s : string) :
  String.length (map f s) = String.length s.
Proof. induction s as [|c s IH]; simpl; [reflexivity | now rewrite IH]. Qed.

Lemma all_repeat_zero (k : nat) : all is_lower_hex (repeat "0" k) = true.
Proof. induction k as [|k IH]; [reflexivity | exact IH]. Qed.

Lemma parse_zeros (k : nat) (s : string) :
  parse 16 (repeat "0" k ++ s) = parse 16 s.
Proof.
  unfold parse. induction k as [|k IH]; [reflexivity |].
  cbn [repeat]. string_cons. cbn [parse_from].
  change (0 * 16 + digit_value "0") with 0. exact IH.
Qed.

(** The path of [locationToString] on "0x03" and 62 characters, and on
    "0x01" or "0x02", the 22 zeros and 40 characters. *)
Lemma locationToString_pool (payload : string) :
  String.length payload = 62%nat ->
  locationToString ("0x03" ++ payload)
  = (let! poolID := Ethers.from_string ("0x" ++ payload) in
     Ok ("poolID " ++ Ethers.toString poolID)).
Proof.
  intros Hlen. unfold locationToString, substring. string_cons.
  cbn [String.length Nat.sub String.substring].
  rewrite (substring_all payload 62 Hlen), substring_0_0, Hlen.
  reflexivity.
Qed.

Lemma locationToString_external (body : string) :
  String.length body = 40%nat ->
  locationToString ("0x01" ++ reserved_zeros ++ body)
  = (let! addr := Ethers.getAddress ("0x" ++ body) in
     Ok (addr ++ " external balance")).
Proof.
  intros Hlen. unfold locationToString, substring, reserved_zeros.
  string_cons. cbn [String.length Nat.sub String.substring].
  rewrite (substring_all body 40 Hlen), !substring_0_0, Hlen.
  reflexivity.
Qed.

Lemma locationToString_internal (body : string) :
  String.length body = 40%nat ->
  locationToString ("0x02" ++ reserved_zeros ++ body)
  = (let! addr := Ethers.getAddress ("0x" ++ body) in
     Ok (addr ++ " internal balance")).
Proof.
  intros Hlen. unfold locationToString, substring, reserved_zeros.
  string_cons. cbn [String.length Nat.sub String.substring].
  rewrite (substring_all body 40 Hlen), !substring_0_0, Hlen.
  reflexivity.
Qed.

(** X13. A pool location reads back: for 0 <= poolID <= 2^248 - 1,
    locationToString of what poolIDtoLocation returns is "poolID " and
    the decimal digits of poolID; for a larger poolID it is the
    invalid-location string. *)
Theorem X13_pool_location_round_trip (poolID : Z) :
  (0 <= poolID <= 2 ^ 248 - 1 ->
   exists loc,
     poolIDtoLocation poolID = Ok loc
     /\ String.length loc = 66%nat
     /\ locationToString loc = Ok ("poolID " ++ Ethers.toString poolID))
  /\ (2 ^ 248 - 1 < poolID ->
      exists loc,
        poolIDtoLocation poolID = Ok loc
        /\ locationToString loc = Ok (invalid_location loc)).
Proof.
  split.
  - intros [Hlo Hhi].
    destruct (even_hex_spec poolID Hlo) as (_ & Hparse & Hall & Hlen).
    specialize (Hlen 31%nat ltac:(lia)).
    change (256 ^ Z.of_nat 31) with (2 ^ 248) in Hlen.
    assert (Hfit : (String.length (even_hex poolID) <= 62)%nat)
      by (apply Hlen; lia).
    set (payload := repeat "0" (62 - String.length (even_hex poolID))
                    ++ even_hex poolID).
    assert (Hsize : String.length payload = 62%nat).
    { subst payload. rewrite length_app_string, repeat_length_string. lia. }
    exists ("0x03" ++ payload). split; [| split].
    + now apply poolIDtoLocation_nonneg.
    + string_cons. cbn [String.length]. now rewrite Hsize.
    + rewrite locationToString_pool by assumption.
      rewrite from_string_hex.
      * subst payload. rewrite parse_zeros, Hparse. reflexivity.
      * now apply nonempty_of_length with (n := 61%nat).
      * apply all_lower_hex_is_hex. subst payload.
        now rewrite all_app, all_repeat_zero, Hall.
  - intros Hbig. assert (Hlo : 0 <= poolID) by lia.
    destruct (even_hex_spec poolID Hlo) as (_ & _ & _ & Hlen).
    specialize (Hlen 31%nat ltac:(lia)).
    change (256 ^ Z.of_nat 31) with (2 ^ 248) in Hlen.
    eexists. split; [now apply poolIDtoLocation_nonneg |].
    unfold locationToString.
    match goal with |- context [(String.length ?l =? 66)%nat] =>
      destruct (Nat.eqb_spec (String.length l) 66) as [Heq | Hne] end;
      [| reflexivity].
    exfalso. revert Heq. string_cons. cbn [String.length].
    rewrite length_app_string, repeat_length_string. intros Heq.
    assert (String.length (even_hex poolID) <= 2 * 31)%nat by lia.
    apply Hlen in H. lia.
Qed.

Lemma X13_witness :
  (0 <= 1234 <= 2 ^ 248 - 1 /\ 2 ^ 248 - 1 < 2 ^ 248)
  /\ (exists loc,
         poolIDtoLocation 1234 = Ok loc
         /\ String.length loc = 66%nat
         /\ locationToString loc = Ok ("poolID " ++ Ethers.toString 1234))
  /\ (exists loc,
         poolIDtoLocation (2 ^ 248) = Ok loc
         /\ locationToString loc = Ok (invalid_location loc)).
Proof.
  split; [lia | split].
  - apply (proj1 (X13_pool_location_round_trip 1234)). lia.
  - apply (proj2 (X13_pool_location_round_trip (2 ^ 248))). lia.
Defined.

Lemma to_lower_hex (c : ascii) :
  is_hex c = true -> is_lower_hex (to_lower c) = true.
Proof.
  destruct c as [[] [] [] [] [] [] [] []]; intros H;
    vm_compute in H; try discriminate H; reflexivity.
Qed.

Lemma to_lower_lower_hex (c : ascii) :
  is_lower_hex c = true -> to_lower c = c.
Proof.
  destruct c as [[] [] [] [] [] [] [] []]; intros H;
    vm_compute in H; try discriminate H; reflexivity.
Qed.

Lemma map_to_lower_hex (s : string) :
  all is_hex s = true -> all is_lower_hex (map to_lower s) = true.
Proof.
  induction s as [|c s IH]; [reflexivity |]. cbn [all map].
  intros [Hc Hs]%andb_true_iff. now rewrite to_lower_hex, IH.
Qed.

Lemma map_to_lower_id (s : string) :
  all is_lower_hex s = true -> map to_lower s = s.
Proof.
  induction s as [|c s IH]; [reflexivity |]. cbn [all map].
  intros [Hc Hs]%andb_true_iff. now rewrite to_lower_lower_hex, IH.
Qed.

Lemma getChecksumAddress_hex (body : string) :
  String.length body = 40%nat -> all is_hex body = true ->
  Ethers.getChecksumAddress ("0x" ++ body) = Ok (checksummed body).
Proof.
  intros Hlen Hall. unfold Ethers.getChecksumAddress.
  rewrite isHexString_0x by assumption.
  rewrite length_app_string, Hlen. reflexivity.
Qed.

Lemma getAddress_hex (body a : string) :
  String.length body = 40%nat -> all is_hex body = true ->
  Ethers.getAddress ("0x" ++ body) = Ok a -> a = checksummed body.
Proof.
  intros Hlen Hall. unfold Ethers.getAddress. rewrite substring_0x.
  change (substring_from ("0x" ++ body) 2) with body.
  change (("0x" =? "0x")%string) with true. cbv iota.
  rewrite Hlen, Hall. cbn [Nat.eqb andb]. cbv zeta.
  rewrite getChecksumAddress_hex by assumption. cbn [bind].
  destruct (_ && _); [discriminate | now intros [= <-]].
Qed.

Lemma getAddress_lower_hex (body : string) :
  String.length body = 40%nat -> all is_lower_hex body = true ->
  Ethers.getAddress ("0x" ++ body) = Ok (checksummed body).
Proof.
  intros Hlen Hall. destruct (getAddress_lower body Hlen Hall) as [t Ht].
  rewrite Ht. f_equal.
  apply getAddress_hex; auto using all_lower_hex_is_hex.
Qed.

Lemma address_location (tag_digits body : string) :
  String.length body = 40%nat ->
  tag_digits ++ pad_loop 62 (map to_lower body)
  = tag_digits ++ reserved_zeros ++ map to_lower body.
Proof.
  intros Hlen. rewrite pad_loop_spec, map_length_string, Hlen. reflexivity.
Qed.

(** X14. An address location reads back: for an address of "0x" and 40
    hex digits in any case, externalAddressToLocation and
    internalAddressToLocation return 66 characters that hold the address
    in lower case, and locationToString of them is the address with its
    checksum, which is what getAddress returns on the address whenever it
    returns, followed by " external balance" or " internal balance". *)
Theorem X14_address_location_round_trip (body : string) :
  String.length body = 40%nat -> all is_hex body = true ->
  exists addr,
    Ethers.getChecksumAddress ("0x" ++ body) = Ok addr
    /\ (forall a, Ethers.getAddress ("0x" ++ body) = Ok a -> a = addr)
    /\ (exists loc,
           externalAddressToLocation ("0x" ++ body) = Ok loc
           /\ loc = "0x01" ++ reserved_zeros ++ map to_lower body
           /\ String.length loc = 66%nat
           /\ locationToString loc = Ok (addr ++ " external balance"))
    /\ (exists loc,
           internalAddressToLocation ("0x" ++ body) = Ok loc
           /\ loc = "0x02" ++ reserved_zeros ++ map to_lower body
           /\ String.length loc = 66%nat
           /\ locationToString loc = Ok (addr ++ " internal balance")).
Proof.
  intros Hlen Hall. exists (checksummed body).
  pose proof (map_to_lower_hex body Hall) as Hlower.
  assert (Hlen' : String.length (map to_lower body) = 40%nat)
    by now rewrite map_length_string.
  assert (Hsame : checksummed (map to_lower body) = checksummed body).
  { unfold checksummed. now rewrite (map_to_lower_id _ Hlower). }
  assert (Hsize : forall t,
            String.length (t ++ reserved_zeros ++ map to_lower body)
            = (String.length t + 62)%nat).
  { intros t. rewrite !length_app_string, Hlen'. reflexivity. }
  split; [now apply getChecksumAddress_hex |].
  split; [intros a; now apply getAddress_hex |].
  split.
  - eexists. split; [| split; [reflexivity | split]].
    + unfold externalAddressToLocation.
      change (substring_from ("0x" ++ body) 2) with body.
      now rewrite address_location.
    + apply Hsize.
    + rewrite locationToString_external by assumption.
      rewrite getAddress_lower_hex, Hsame by assumption. reflexivity.
  - eexists. split; [| split; [reflexivity | split]].
    + unfold internalAddressToLocation.
      change (substring_from ("0x" ++ body) 2) with body.
      now rewrite address_location.
    + apply Hsize.
    + rewrite locationToString_internal by assumption.
      rewrite getAddress_lower_hex, Hsame by assumption. reflexivity.
Qed.

Lemma X14_witness :
  (String.length (substring_from tokenA_example 2) = 40%nat
   /\ all is_hex (substring_from tokenA_example 2) = true)
  /\ exists addr,
       Ethers.getChecksumAddress ("0x" ++ substring_from tokenA_example 2)
       = Ok addr
       /\ (forall a,
              Ethers.getAddress ("0x" ++ substring_from tokenA_example 2)
              = Ok a -> a = addr)
       /\ (exists loc,
              externalAddressToLocation
                ("0x" ++ substring_from tokenA_example 2) = Ok loc
              /\ loc = "0x01" ++ reserved_zeros
                       ++ map to_lower (substring_from tokenA_example 2)
              /\ String.length loc = 66%nat
              /\ locationToString loc = Ok (addr ++ " external balance"))
       /\ (exists loc,
              internalAddressToLocation
                ("0x" ++ substring_from tokenA_example 2) = Ok loc
              /\ loc = "0x02" ++ reserved_zeros
                       ++ map to_lower (substring_from tokenA_example 2)
              /\ String.length loc = 66%nat
              /\ locationToString loc = Ok (addr ++ " internal balance")).
Proof.
  split; [split; vm_compute; reflexivity |].
  apply (X14_address_location_round_trip (substring_from tokenA_example 2));
    vm_compute; reflexivity.
Defined.

Lemma substring_from_length (s : string) (n : nat) :
  String.length (substring_from s n) = (String.length s - n)%nat.
Proof.
  revert s. induction n as [|n IH]; intros s; cbn [substring_from].
  - lia.
  - destruct s as [|c s]; [reflexivity |]. cbn [String.length]. now rewrite IH.
Qed.

Lemma pad_loop_length (s : string) :
  String.length (pad_loop 62 s) = Nat.max 62 (String.length s).
Proof.
  rewrite pad_loop_spec, length_app_string, repeat_length_string. lia.
Qed.

(** X15. The two address encoders check nothing and never fail on a
    string of ASCII characters: they drop the first two characters of the
    address, whatever they are, and pad the rest to 62 characters. The
    location has 66 characters exactly when the address has at most 64,
    and for a longer address locationToString calls it invalid. *)
Theorem X15_address_encoders_unchecked (address : string) :
  all is_ascii address = true ->
  exists external internal,
    externalAddressToLocation address = Ok external
    /\ internalAddressToLocation address = Ok internal
    /\ String.length external
       = (4 + Nat.max 62 (String.length address - 2))%nat
    /\ String.length internal = String.length external
    /\ (String.length external = 66%nat
        <-> (String.length address <= 64)%nat)
    /\ ((64 < String.length address)%nat ->
        locationToString external = Ok (invalid_location external)
        /\ locationToString internal = Ok (invalid_location internal)).
Proof.
  intros _. unfold externalAddressToLocation, internalAddressToLocation.
  set (addr := pad_loop 62 (map to_lower (substring_from address 2))).
  assert (Hlen : String.length addr
                 = Nat.max 62 (String.length address - 2)).
  { subst addr.
    now rewrite pad_loop_length, map_length_string, substring_from_length. }
  assert (Hsize : forall t, String.length (t ++ addr)
                            = (String.length t + String.length addr)%nat)
    by (intros t; apply length_app_string).
  eexists _, _. split; [reflexivity |]. split; [reflexivity |].
  rewrite !Hsize, Hlen. cbn [String.length].
  split; [lia |]. split; [reflexivity |]. split; [lia |].
  intros Hlong. unfold locationToString. rewrite !Hsize, Hlen.
  cbn [String.length].
  destruct (Nat.eqb_spec (4 + Nat.max 62 (String.length address - 2)) 66);
    [lia |]. split; reflexivity.
Qed.

Lemma X15_witness :
  all is_ascii "0x1234" = true
  /\ exists external internal,
       externalAddressToLocation "0x1234" = Ok external
       /\ internalAddressToLocation "0x1234" = Ok internal
       /\ String.length external
          = (4 + Nat.max 62 (String.length "0x1234" - 2))%nat
       /\ String.length internal = String.length external
       /\ (String.length external = 66%nat
           <-> (String.length "0x1234" <= 64)%nat)
       /\ ((64 < String.length "0x1234")%nat ->
           locationToString external = Ok (invalid_location external)
           /\ locationToString internal = Ok (invalid_location internal)).
Proof.
  split; [vm_compute; reflexivity |].
  apply (X15_address_encoders_unchecked "0x1234"). vm_compute. reflexivity.
Defined.

(** ** Small and growing amounts *)

(** X16. On an active rate a swap of nothing gives nothing in both
    directions, and no amountA is free: calculateAmountB of a positive
    amountA is at least 1, while calculateAmountA of a positive amountB
    is 0 as long as amountB * x1 < x2. *)
Theorem X16_small_amounts (rate : string) (x1 x2 : Z) :
  decodeExchangeRate rate = Ok (x1, x2) -> 0 < x1 -> 0 < x2 ->
  calculateAmountA 0 rate = Ok 0
  /\ calculateAmountB 0 rate = Ok 0
  /\ (forall amountA, 0 < amountA ->
        exists amountB,
          calculateAmountB amountA rate = Ok amountB /\ 1 <= amountB)
  /\ (forall amountB, 0 <= amountB -> amountB * x1 < x2 ->
        calculateAmountA amountB rate = Ok 0).
Proof.
  intros Hrate Hx1 Hx2. split; [| split; [| split]].
  - rewrite (calculateAmountA_floor rate x1 x2 Hrate Hx1 Hx2) by lia.
    reflexivity.
  - rewrite (calculateAmountB_ceil rate x1 x2 Hrate Hx1 Hx2) by lia.
    reflexivity.
  - intros amountA Ha. eexists. split.
    + apply (calculateAmountB_ceil rate x1 x2 Hrate Hx1 Hx2). lia.
    + pose proof (is_ceil_div (amountA * x2) x1 Hx1) as Hc.
      unfold is_ceil in Hc. nia.
  - intros amountB Hb Hsmall.
    rewrite (calculateAmountA_floor rate x1 x2 Hrate Hx1 Hx2) by lia.
    rewrite Z.div_small by nia. reflexivity.
Qed.

Lemma X16_witness :
  (decodeExchangeRate rate_3_1 = Ok (3, 1) /\ 0 < 3 /\ 0 < 1)
  /\ calculateAmountA 0 rate_3_1 = Ok 0
  /\ calculateAmountB 0 rate_3_1 = Ok 0
  /\ (exists amountB,
         calculateAmountB 1 rate_3_1 = Ok amountB /\ 1 <= amountB).
Proof.
  assert (Hrate : decodeExchangeRate rate_3_1 = Ok (3, 1))
    by (vm_compute; reflexivity).
  split; [repeat split; first [lia | exact Hrate] |].
  pose proof (X16_small_amounts rate_3_1 3 1 Hrate ltac:(lia) ltac:(lia))
    as (HA & HB & Hpos & _).
  split; [exact HA | split; [exact HB |]]. apply (Hpos 1). lia.
Defined.

(** X17. Both calculators of the market taker are monotone: on an
    active rate and with 0 <= feePPM < 1_000_000, a larger unsigned
    amountAMT never asks a smaller amountBMT, and a larger unsigned
    amountBMT never gives a smaller amountAMT. *)
Theorem X17_taker_monotone (rate : string) (x1 x2 feePPM small large : Z) :
  decodeExchangeRate rate = Ok (x1, x2) -> 0 < x1 -> 0 < x2 ->
  0 <= feePPM < 1000000 -> 0 <= small <= large ->
  (exists r r',
      calculateMarketOrderExactAMT small rate feePPM = Ok r
      /\ calculateMarketOrderExactAMT large rate feePPM = Ok r'
      /\ ExactAMT.amountBMM r <= ExactAMT.amountBMM r'
      /\ ExactAMT.amountBMT r <= ExactAMT.amountBMT r')
  /\ (exists r r',
         calculateMarketOrderExactBMT small rate feePPM = Ok r
         /\ calculateMarketOrderExactBMT large rate feePPM = Ok r'
         /\ ExactBMT.amountBMM r <= ExactBMT.amountBMM r'
         /\ ExactBMT.amountAMT r <= ExactBMT.amountAMT r').
Proof.
  intros Hrate Hx1 Hx2 Hfee Hle. split.
  - eexists _, _. split; [| split].
    + apply (calculateMarketOrderExactAMT_active _ _ x1 x2);
        unfold MAX_PPM; auto; lia.
    + apply (calculateMarketOrderExactAMT_active _ _ x1 x2);
        unfold MAX_PPM; auto; lia.
    + cbn [ExactAMT.amountBMM ExactAMT.amountBMT]. unfold MAX_PPM.
      pose proof (is_ceil_div (small * x2) x1 Hx1) as Hs.
      pose proof (is_ceil_div (large * x2) x1 Hx1) as Hl.
      set (b := small * x2 / x1 + _) in *.
      set (b' := large * x2 / x1 + _) in *.
      assert (Hb : b <= b') by (unfold is_ceil in *; nia).
      split; [exact Hb |].
      apply Z.div_le_mono; lia.
  - unfold calculateMarketOrderExactBMT, MAX_PPM.
    rewrite !div_floor by nia. cbn [bind].
    pose proof (is_floor_div (small * feePPM) 1000000 ltac:(lia)) as Hs.
    pose proof (is_floor_div (large * feePPM) 1000000 ltac:(lia)) as Hl.
    set (f := small * feePPM / 1000000) in *.
    set (f' := large * feePPM / 1000000) in *.
    assert (Hm : 0 <= small - f <= large - f')
      by (unfold is_floor in *; nia).
    rewrite !(calculateAmountA_floor rate x1 x2 Hrate Hx1 Hx2) by lia.
    cbn [bind]. eexists _, _. split; [reflexivity |].
    split; [reflexivity |].
    cbn [ExactBMT.amountBMM ExactBMT.amountAMT].
    split; [lia |]. apply Z.div_le_mono; [assumption | nia].
Qed.

Lemma X17_witness :
  (decodeExchangeRate rate_3_1 = Ok (3, 1) /\ 0 < 3 /\ 0 < 1
   /\ 0 <= 3000 < 1000000 /\ 0 <= 9 <= 10)
  /\ (exists r r',
         calculateMarketOrderExactAMT 9 rate_3_1 3000 = Ok r
         /\ calculateMarketOrderExactAMT 10 rate_3_1 3000 = Ok r'
         /\ ExactAMT.amountBMM r <= ExactAMT.amountBMM r'
         /\ ExactAMT.amountBMT r <= ExactAMT.amountBMT r')
  /\ (exists r r',
         calculateMarketOrderExactBMT 9 rate_3_1 3000 = Ok r
         /\ calculateMarketOrderExactBMT 10 rate_3_1 3000 = Ok r'
         /\ ExactBMT.amountBMM r <= ExactBMT.amountBMM r'
         /\ ExactBMT.amountAMT r <= ExactBMT.amountAMT r').
Proof.
  assert (Hrate : decodeExchangeRate rate_3_1 = Ok (3, 1))
    by (vm_compute; reflexivity).
  split; [repeat split; first [lia | exact Hrate] |].
  apply (X17_taker_monotone rate_3_1 3 1 3000 9 10 Hrate); lia.
Defined.
